(** * Weather forecast client types: reshaping and flattening

    A shallow embedding of [frequenz/client/weather/_types.py]:
    the [ForecastFeature] enum and its conversion from wire codes, [Location],
    [Forecasts.to_ndarray_vlf] (the dense (time, location, feature) array) and
    [HistoricalForecasts.flatten] / [flatten] (the tuple records).

    Conventions of the embedding.
    - Python exceptions are values of [exn]; a computation that may raise
      and may write to the logger or to standard output has type [M A]: the
      diagnostics emitted so far, in order, and either the exception raised
      or the value returned.
    - Protobuf repeated fields are lists; [l[i]] is [getitem], which raises
      [IndexError] out of range.
    - Floats are IEEE binary64 ([PrimFloat.float]); [==] on them is
      [PrimFloat.eqb], so a NaN equals nothing and [0.0 == -0.0].
    - A naive [datetime] is its number of microseconds since the epoch;
      [Timestamp.ToDatetime()] raises [OverflowError] for a timestamp outside
      the years 1 to 9999 that [datetime] covers.
    - A three dimensional [numpy] array is its shape and its cells as nested
      lists, outermost axis first. *)

From Stdlib Require Import ZArith Floats.PrimFloat.
From stdpp Require Import base option list strings.

Local Open Scope Z_scope.
Local Open Scope list_scope.

(** ** Exceptions, diagnostics and the effect monad *)

(** The exceptions the module raises. [ValueError_missing] is
    [ValueError("Forecast data is missing or invalid.")]; [ValueError_enum c]
    is the [ValueError("<c> is not a valid ForecastFeature")] of the enum
    constructor; [OverflowError] is what [Timestamp.ToDatetime()] raises for
    a date out of range (the sum of the epoch and a [timedelta] in the
    protobuf runtime; a runtime that validates the timestamp first raises
    its own error at the same place); [RuntimeError e] is
    [RuntimeError("Error processing forecast data")] raised [from e]. *)
Inductive exn : Type :=
| ValueError_missing
| ValueError_enum (code : Z)
| IndexError
| OverflowError
| RuntimeError (cause : exn).

(** [isinstance(e, ValueError)]. *)
Definition is_ValueError (e : exn) : bool :=
  match e with
  | ValueError_missing | ValueError_enum _ => true
  | IndexError | OverflowError | RuntimeError _ => false
  end.

Inductive result (A : Type) : Type :=
| Ok (a : A)
| Raise (e : exn).
Arguments Ok {A} a.
Arguments Raise {A} e.

(** What the module writes besides its results: the logger's warning of
    [ForecastFeature.from_pb], and the three [print]ed shape warnings of
    [to_ndarray_vlf], each with the two values it interpolates. *)
Inductive diagnostic : Type :=
| Log_unknown_feature (code : Z)
| Print_validity_times (axis : nat) (indexes : list nat)
| Print_locations (axis : nat) (indexes : list nat)
| Print_features (axis : nat) (indexes : list nat).

Definition M (A : Type) : Type := (list diagnostic * result A)%type.

Definition ret {A} (a : A) : M A := ([], Ok a).
Definition raise {A} (e : exn) : M A := ([], Raise e).
Definition tell (d : diagnostic) : M unit := ([d], Ok tt).
Definition lift {A} (r : result A) : M A := ([], r).

Definition bind {A B} (m : M A) (k : A -> M B) : M B :=
  match m with
  | (out, Raise e) => (out, Raise e)
  | (out, Ok a) => let '(out', r) := k a in (out ++ out', r)
  end.

Definition rbind {A B} (r : result A) (k : A -> result B) : result B :=
  match r with
  | Raise e => Raise e
  | Ok a => k a
  end.

Declare Scope eff_scope.
Delimit Scope eff_scope with eff.
Notation "x <- m ;; k" := (bind m (fun x => k))
  (at level 100, m at next level, right associativity) : eff_scope.
Notation "m ;;; k" := (bind m (fun _ => k))
  (at level 100, right associativity) : eff_scope.
Notation "x <~ r ;; k" := (rbind r (fun x => k))
  (at level 100, r at next level, right associativity) : eff_scope.
Local Open Scope eff_scope.

Definition emitted {A} (m : M A) : list diagnostic := fst m.
Definition outcome {A} (m : M A) : result A := snd m.

(** [try: body except Exception as e: raise RuntimeError(...) from e]. *)
Definition try_except_RuntimeError {A} (body : M A) : M A :=
  match body with
  | (out, Raise e) => (out, Raise (RuntimeError e))
  | (out, Ok a) => (out, Ok a)
  end.

(** [l[i]] on a list or a repeated field, for an index that is not negative. *)
Definition getitem {A} (l : list A) (i : nat) : result A :=
  match l !! i with
  | Some x => Ok x
  | None => Raise IndexError
  end.

(** ** ForecastFeature *)

Inductive ForecastFeature : Type :=
| UNSPECIFIED
| TEMPERATURE_2_METRE
| U_WIND_COMPONENT_100_METRE
| V_WIND_COMPONENT_100_METRE
| U_WIND_COMPONENT_10_METRE
| V_WIND_COMPONENT_10_METRE
| SURFACE_SOLAR_RADIATION_DOWNWARDS
| SURFACE_NET_SOLAR_RADIATION.

(** The members in definition order: what [for t in ForecastFeature] visits. *)
Definition members : list ForecastFeature :=
  [UNSPECIFIED; TEMPERATURE_2_METRE; U_WIND_COMPONENT_100_METRE;
   V_WIND_COMPONENT_100_METRE; U_WIND_COMPONENT_10_METRE;
   V_WIND_COMPONENT_10_METRE; SURFACE_SOLAR_RADIATION_DOWNWARDS;
   SURFACE_NET_SOLAR_RADIATION].

(** [req_feature == ForecastFeature.from_pb(...)]: members are singletons. *)
Definition ForecastFeature_eqb (a b : ForecastFeature) : bool :=
  match a, b with
  | UNSPECIFIED, UNSPECIFIED
  | TEMPERATURE_2_METRE, TEMPERATURE_2_METRE
  | U_WIND_COMPONENT_100_METRE, U_WIND_COMPONENT_100_METRE
  | V_WIND_COMPONENT_100_METRE, V_WIND_COMPONENT_100_METRE
  | U_WIND_COMPONENT_10_METRE, U_WIND_COMPONENT_10_METRE
  | V_WIND_COMPONENT_10_METRE, V_WIND_COMPONENT_10_METRE
  | SURFACE_SOLAR_RADIATION_DOWNWARDS, SURFACE_SOLAR_RADIATION_DOWNWARDS
  | SURFACE_NET_SOLAR_RADIATION, SURFACE_NET_SOLAR_RADIATION => true
  | _, _ => false
  end.

(** A sample assignment of wire codes (the generated [weather_pb2] module
    that fixes the real ones is not part of the sources), used to run the
    model on concrete payloads. *)
Definition sample_codes (t : ForecastFeature) : Z :=
  match t with
  | UNSPECIFIED => 0
  | TEMPERATURE_2_METRE => 1
  | U_WIND_COMPONENT_100_METRE => 2
  | V_WIND_COMPONENT_100_METRE => 3
  | U_WIND_COMPONENT_10_METRE => 4
  | V_WIND_COMPONENT_10_METRE => 5
  | SURFACE_SOLAR_RADIATION_DOWNWARDS => 6
  | SURFACE_NET_SOLAR_RADIATION => 7
  end.

(** ** Messages of the wire format *)

(** [google.protobuf.Timestamp]. *)
Record Timestamp : Type := { seconds : Z; nanos : Z }.

(** A [datetime] without time zone, as is [Timestamp.ToDatetime()], by
    its microseconds since the epoch. *)
Definition datetime : Type := Z.

(** [datetime.min] and [datetime.max]: the first microsecond of the year 1
    and the last microsecond of the year 9999. *)
Definition datetime_min : datetime := -62135596800000000.
Definition datetime_max : datetime := 253402300799999999.

(** The microseconds of a timestamp: the whole seconds, and the
    nanoseconds rounded toward zero. *)
Definition microseconds (ts : Timestamp) : Z :=
  seconds ts * 1000000 + Z.quot (nanos ts) 1000.

(** The timestamp lies in the years that [datetime] covers. *)
Definition in_range (ts : Timestamp) : bool :=
  (datetime_min <=? microseconds ts) && (microseconds ts <=? datetime_max).

(** [Timestamp.ToDatetime()] of the protobuf runtime: the epoch plus a
    [timedelta] of the seconds and of the microseconds of the timestamp.
    The sum raises [OverflowError] when it leaves the range of
    [datetime]. *)
Definition ToDatetime (ts : Timestamp) : result datetime :=
  if in_range ts then Ok (microseconds ts) else Raise OverflowError.

(** [location_pb2.Location]. *)
Record Location_pb : Type :=
  { pb_latitude : float; pb_longitude : float; pb_country_code : string }.

(** One [(feature, value)] entry; [feature] is the wire code. *)
Record FeatureForecast : Type := { feature : Z; value : float }.

(** The per validity time entry of a location. *)
Record Forecast_pb : Type :=
  { valid_at_ts : Timestamp; features : list FeatureForecast }.

Record LocationForecast : Type :=
  { forecasts : list Forecast_pb;
    location : Location_pb;
    creation_ts : Timestamp }.

(** ** Location *)

Record Location : Type :=
  { latitude : float; longitude : float; country_code : string }.

Definition Location_from_pb (l : Location_pb) : Location :=
  {| latitude := pb_latitude l;
     longitude := pb_longitude l;
     country_code := pb_country_code l |}.

Definition Location_to_pb (l : Location) : Location_pb :=
  {| pb_latitude := latitude l;
     pb_longitude := longitude l;
     pb_country_code := country_code l |}.

(** The dataclass [__eq__] of two [Location] objects, as the comparison of
    their fields with [==]. Python compares the tuples of the fields, and a
    tuple comparison takes two fields that are one and the same object for
    equal without comparing them. The two ways differ only when a
    coordinate of both locations is one NaN object: the definition is the
    [__eq__] of Python whenever the coordinates of one of the two locations
    are not NaN, and the statements about requested locations are made for
    such locations. *)
Definition Location_eqb (a b : Location) : bool :=
  PrimFloat.eqb (latitude a) (latitude b)
  && PrimFloat.eqb (longitude a) (longitude b)
  && String.eqb (country_code a) (country_code b).

(** ** numpy arrays of three dimensions *)

Record ndarray : Type :=
  { shape : nat * nat * nat;
    cells : list (list (list float)) }.

(** [np.full((n0, n1, n2), v)]. *)
Definition np_full (sh : nat * nat * nat) (v : float) : ndarray :=
  let '(n0, n1, n2) := sh in
  {| shape := sh; cells := replicate n0 (replicate n1 (replicate n2 v)) |}.

(** [array[i, j, k] = v]: [IndexError] outside the shape. *)
Definition setitem (a : ndarray) (i j k : nat) (v : float) : result ndarray :=
  let '(n0, n1, n2) := shape a in
  if (i <? n0)%nat && (j <? n1)%nat && (k <? n2)%nat
  then Ok {| shape := shape a;
             cells := alter (alter (fun row => <[k := v]> row) j) i (cells a) |}
  else Raise IndexError.

(** [array[i, j, k]], [None] outside the array. *)
Definition cell (a : ndarray) (i j k : nat) : option float :=
  plane ← cells a !! i; row ← plane !! j; row !! k.

(** The cells agree with the shape. *)
Definition well_shaped (a : ndarray) : Prop :=
  let '(n0, n1, n2) := shape a in
  length (cells a) = n0
  /\ Forall (fun plane =>
       length plane = n1 /\ Forall (fun row => length row = n2) plane)
     (cells a).

(** ** Sample payloads *)

Definition at_second (s : Z) : Timestamp := {| seconds := s; nanos := 0 |}.

Definition berlin : Location_pb :=
  {| pb_latitude := 52.5%float; pb_longitude := 13.5%float;
     pb_country_code := "DE" |}.

Definition paris : Location_pb :=
  {| pb_latitude := 48.75%float; pb_longitude := 2.25%float;
     pb_country_code := "FR" |}.

(** A location no sample payload holds. *)
Definition oslo : Location :=
  {| latitude := 59.75%float; longitude := 10.75%float; country_code := "NO" |}.

(** An entry with the two features of codes 1 and 6. *)
Definition two_features (s : Z) (v1 v6 : float) : Forecast_pb :=
  {| valid_at_ts := at_second s;
     features := [ {| feature := 1; value := v1 |};
                   {| feature := 6; value := v6 |} ] |}.

(** Two locations, three validity times, two features, every cell there. *)
Definition payload_2x3x2 : list LocationForecast :=
  [ {| forecasts := [ two_features 3600 1%float 2%float;
                      two_features 7200 3%float 4%float;
                      two_features 10800 5%float 6%float ];
       location := berlin;
       creation_ts := at_second 60 |};
    {| forecasts := [ two_features 3600 7%float 8%float;
                      two_features 7200 9%float 10%float;
                      two_features 10800 11%float 12%float ];
       location := paris;
       creation_ts := at_second 120 |} ].

(** One location that has no validity time entry. *)
Definition payload_no_times : list LocationForecast :=
  [ {| forecasts := []; location := berlin; creation_ts := at_second 60 |} ].

(** The second location lacks the second feature of the template. *)
Definition payload_sparse : list LocationForecast :=
  [ {| forecasts := [ two_features 3600 1%float 2%float ];
       location := berlin;
       creation_ts := at_second 60 |};
    {| forecasts := [ {| valid_at_ts := at_second 3600;
                         features := [ {| feature := 1;
                                          value := 7%float |} ] |} ];
       location := paris;
       creation_ts := at_second 120 |} ].

(** One entry whose feature code, 99, no member of the enum has. *)
Definition payload_unknown_code : list LocationForecast :=
  [ {| forecasts := [ {| valid_at_ts := at_second 3600;
                         features := [ {| feature := 99;
                                          value := 1%float |} ] |} ];
       location := berlin;
       creation_ts := at_second 60 |} ].

(** The creation time of the one location is in the year 33658, past the
    last year of [datetime]; its one feature entry has the code 99. *)
Definition payload_late_creation : list LocationForecast :=
  [ {| forecasts := [ {| valid_at_ts := at_second 3600;
                         features := [ {| feature := 99;
                                          value := 1%float |} ] |} ];
       location := berlin;
       creation_ts := at_second 1000000000000 |} ].

(** Two validity times, every cell there; the first validity time is past
    the last year of [datetime]. *)
Definition payload_late_time : list LocationForecast :=
  [ {| forecasts := [ two_features 1000000000000 1%float 2%float;
                      two_features 7200 3%float 4%float ];
       location := berlin;
       creation_ts := at_second 60 |} ].

(** The array of [payload_2x3x2] without filters, and its plane at the
    second validity time. *)
Definition array_2x3x2 : ndarray :=
  {| shape := (3%nat, 2%nat, 2%nat);
     cells := [ [[1; 2]; [7; 8]];
                [[3; 4]; [9; 10]];
                [[5; 6]; [11; 12]] ]%float |}.

Definition array_second_time : ndarray :=
  {| shape := (1%nat, 2%nat, 2%nat);
     cells := [ [[3; 4]; [9; 10]] ]%float |}.

(** ** The module, over the wire codes of the enum members *)

Section Weather.

(** [t.value] of a member [t]: the constant of [weather_pb2.ForecastFeature]
    it is defined with. *)
Variable pb_value : ForecastFeature -> Z.

(** [ForecastFeature(code)], the enum's lookup by value: the first member
    with that value, [ValueError] when there is none. *)
Definition ForecastFeature_call (code : Z) : result ForecastFeature :=
  match List.find (fun t => pb_value t =? code) members with
  | Some t => Ok t
  | None => Raise (ValueError_enum code)
  end.

(** [ForecastFeature.from_pb] (lines 63-81): the warning of the logger and
    [UNSPECIFIED] when no member has the code, the lookup otherwise. *)
Definition ForecastFeature_from_pb (forecast_feature : Z) : M ForecastFeature :=
  if negb (existsb (fun t => pb_value t =? forecast_feature) members)
  then tell (Log_unknown_feature forecast_feature) ;;; ret UNSPECIFIED
  else lift (ForecastFeature_call forecast_feature).

(** *** Forecasts.to_ndarray_vlf *)

(** [if xs:] on an optional list: [None] and the empty list are false. *)
Definition truthy {A} (xs : option (list A)) : bool :=
  match xs with
  | Some (_ :: _) => true
  | _ => false
  end.

(** [len(xs)] of a filter that is not [None]. *)
Definition filter_len {A} (xs : option (list A)) : nat :=
  length (default [] xs).

(** The inner loop of a filter (lines 194-199, 206-211, 218-223):
    [for index, x in enumerate(template)] with a [break] at the first [x]
    that the requested value equals. *)
Fixpoint scan {A} (matches : A -> M bool) (template : list A) (index : nat)
  : M (option nat) :=
  match template with
  | [] => ret None
  | x :: rest =>
      b <- matches x ;;
      if b then ret (Some index) else scan matches rest (S index)
  end.

(** The outer loop (lines 193, 205, 217): every requested value appends
    the index its scan stopped at, and nothing when the scan ran to the
    end. *)
Fixpoint resolve {R A} (matches : R -> A -> M bool)
    (requested : list R) (template : list A) (indexes : list nat)
  : M (list nat) :=
  match requested with
  | [] => ret indexes
  | r :: rest =>
      found <- scan (matches r) template 0 ;;
      resolve matches rest template
        (match found with
         | Some index => indexes ++ [index]
         | None => indexes
         end)
  end.

(** The three comparisons of lines 197, 209 and 221. *)
Definition location_matches (req_location : Location)
    (location_forecast : LocationForecast) : M bool :=
  ret (Location_eqb req_location
         (Location_from_pb (location location_forecast))).

Definition validity_time_matches (req_validity_time : datetime)
    (val_time : Forecast_pb) : M bool :=
  converted <- lift (ToDatetime (valid_at_ts val_time)) ;;
  ret (req_validity_time =? converted).

Definition feature_matches (req_feature : ForecastFeature)
    (ff : FeatureForecast) : M bool :=
  t <- ForecastFeature_from_pb (feature ff) ;;
  ret (ForecastFeature_eqb req_feature t).

(** The three nested population loops (lines 236-255), innermost first.
    Each carries the array and the running output index of its axis; the
    value is read from the payload before it is assigned. *)
Fixpoint populate_features (location_forecasts : list LocationForecast)
    (l_index t_index : nat) (array_t_index array_l_index : nat)
    (feature_indexes : list nat) (array_f_index : nat) (array : ndarray)
  : result ndarray :=
  match feature_indexes with
  | [] => Ok array
  | f_index :: rest =>
      lf <~ getitem location_forecasts l_index ;;
      fc <~ getitem (forecasts lf) t_index ;;
      ff <~ getitem (features fc) f_index ;;
      array' <~ setitem array array_t_index array_l_index array_f_index
                  (value ff) ;;
      populate_features location_forecasts l_index t_index
        array_t_index array_l_index rest (S array_f_index) array'
  end.

Fixpoint populate_times (location_forecasts : list LocationForecast)
    (l_index : nat) (array_l_index : nat)
    (validity_times_indexes : list nat) (array_t_index : nat)
    (feature_indexes : list nat) (array : ndarray)
  : result ndarray :=
  match validity_times_indexes with
  | [] => Ok array
  | t_index :: rest =>
      array' <~ populate_features location_forecasts l_index t_index
                  array_t_index array_l_index feature_indexes 0%nat array ;;
      populate_times location_forecasts l_index array_l_index
        rest (S array_t_index) feature_indexes array'
  end.

Fixpoint populate_locations (location_forecasts : list LocationForecast)
    (location_indexes : list nat) (array_l_index : nat)
    (validity_times_indexes feature_indexes : list nat) (array : ndarray)
  : result ndarray :=
  match location_indexes with
  | [] => Ok array
  | l_index :: rest =>
      array' <~ populate_times location_forecasts l_index array_l_index
                  validity_times_indexes 0%nat feature_indexes array ;;
      populate_locations location_forecasts rest (S array_l_index)
        validity_times_indexes feature_indexes array'
  end.

(** [if cond: print(...)]. *)
Definition print_if (cond : bool) (d : diagnostic) : M unit :=
  if cond then tell d else ret tt.

(** The three index lists (lines 192-225): the filter resolved against
    its template when it is truthy, the whole axis otherwise. *)
Definition location_indexes (locations : option (list Location))
    (location_forecasts : list LocationForecast) : M (list nat) :=
  if truthy locations
  then resolve location_matches (default [] locations) location_forecasts []
  else ret (seq 0 (length location_forecasts)).

Definition validity_times_indexes (validity_times : option (list datetime))
    (template : list Forecast_pb) : M (list nat) :=
  if truthy validity_times
  then resolve validity_time_matches (default [] validity_times) template []
  else ret (seq 0 (length template)).

Definition feature_indexes (features_filter : option (list ForecastFeature))
    (template : list FeatureForecast) : M (list nat) :=
  if truthy features_filter
  then resolve feature_matches (default [] features_filter) template []
  else ret (seq 0 (length template)).

(** The three checks after the population (lines 259-277). The first
    compares the axis with the number of requested validity times; the two
    others compare it with the length of the index list. *)
Definition shape_warnings
    (validity_times : option (list datetime))
    (locations : option (list Location))
    (features_filter : option (list ForecastFeature))
    (t_indexes l_indexes f_indexes : list nat) (array : ndarray) : M unit :=
  let '(shape0, shape1, shape2) := shape array in
  print_if (bool_decide (is_Some validity_times)
            && negb (shape0 =? filter_len validity_times)%nat)
    (Print_validity_times shape0 t_indexes) ;;;
  print_if (bool_decide (is_Some locations)
            && negb (shape1 =? length l_indexes)%nat)
    (Print_locations shape1 l_indexes) ;;;
  print_if (bool_decide (is_Some features_filter)
            && negb (shape2 =? length f_indexes)%nat)
    (Print_features shape2 f_indexes).

(** The body of the [try] block (lines 180-277). The two [getitem]s are
    the [location_forecasts[0]] and [.forecasts[0]] of lines 180-184. *)
Definition to_ndarray_vlf_body
    (validity_times : option (list datetime))
    (locations : option (list Location))
    (features_filter : option (list ForecastFeature))
    (location_forecasts : list LocationForecast) : M ndarray :=
  lf0 <- lift (getitem location_forecasts 0) ;;
  fc0 <- lift (getitem (forecasts lf0) 0) ;;
  l_indexes <- location_indexes locations location_forecasts ;;
  t_indexes <- validity_times_indexes validity_times (forecasts lf0) ;;
  f_indexes <- feature_indexes features_filter (features fc0) ;;
  array <- lift (populate_locations location_forecasts l_indexes 0%nat
                   t_indexes f_indexes
                   (np_full (length t_indexes, length l_indexes,
                             length f_indexes) nan)) ;;
  shape_warnings validity_times locations features_filter
    t_indexes l_indexes f_indexes array ;;;
  ret array.

(** [Forecasts.to_ndarray_vlf], on the [location_forecasts] of the wrapped
    response: the check of line 176, then the body under the handler of
    lines 280-281. *)
Definition to_ndarray_vlf
    (validity_times : option (list datetime))
    (locations : option (list Location))
    (features_filter : option (list ForecastFeature))
    (location_forecasts : list LocationForecast) : M ndarray :=
  match location_forecasts with
  | [] => raise ValueError_missing
  | _ :: _ =>
      try_except_RuntimeError
        (to_ndarray_vlf_body validity_times locations features_filter
           location_forecasts)
  end.

(** *** flatten *)

(** One row of the flattened data: creation time, latitude, longitude,
    validity time, feature, value. *)
Definition row : Type :=
  (datetime * float * float * datetime * ForecastFeature * float)%type.

(** The three loops of lines 351-363, innermost first. The elements of
    the tuple are evaluated from left to right (lines 356-361): the two
    conversions of the timestamps come before the call of the enum, and
    each of the three may raise; [data.append] adds the row at the end. *)
Fixpoint flatten_features (location_forecast : LocationForecast)
    (forecasts_ : Forecast_pb) (feature_forecasts : list FeatureForecast)
    (data : list row) : result (list row) :=
  match feature_forecasts with
  | [] => Ok data
  | feature_forecast :: rest =>
      created <~ ToDatetime (creation_ts location_forecast) ;;
      valid_at <~ ToDatetime (valid_at_ts forecasts_) ;;
      t <~ ForecastFeature_call (feature feature_forecast) ;;
      flatten_features location_forecast forecasts_ rest
        (data ++ [(created,
                   pb_latitude (location location_forecast),
                   pb_longitude (location location_forecast),
                   valid_at,
                   t,
                   value feature_forecast)])
  end.

Fixpoint flatten_forecasts (location_forecast : LocationForecast)
    (forecasts_list : list Forecast_pb) (data : list row)
  : result (list row) :=
  match forecasts_list with
  | [] => Ok data
  | forecasts_ :: rest =>
      data' <~ flatten_features location_forecast forecasts_
                 (features forecasts_) data ;;
      flatten_forecasts location_forecast rest data'
  end.

Fixpoint flatten_locations (location_forecasts : list LocationForecast)
    (data : list row) : result (list row) :=
  match location_forecasts with
  | [] => Ok data
  | location_forecast :: rest =>
      data' <~ flatten_forecasts location_forecast
                 (forecasts location_forecast) data ;;
      flatten_locations rest data'
  end.

(** The module level [flatten]; [np.array(data)] keeps the rows in order. *)
Definition flatten (location_forecasts : list LocationForecast)
  : result (list row) :=
  flatten_locations location_forecasts [].

(** [HistoricalForecasts.flatten] (lines 322-325). *)
Definition HistoricalForecasts_flatten
    (location_forecasts : list LocationForecast) : result (list row) :=
  match location_forecasts with
  | [] => Raise ValueError_missing
  | _ :: _ => flatten location_forecasts
  end.

(** *** Client.stream_live_forecast *)

(** An element of a stream key: a location or a feature. *)
Inductive key_item : Type :=
| KLocation (l : Location)
| KFeature (f : ForecastFeature).

(** [==] on the elements of a key: the equality of [Location], the
    identity of the members, and a location never equals a feature. Python
    takes two coordinates that are one and the same float object for equal
    without comparing them, which differs from [Location_eqb] for NaN only:
    the model is that of Python when the coordinates of one of the two
    locations are not NaN. *)
Definition key_item_eqb (a b : key_item) : bool :=
  match a, b with
  | KLocation x, KLocation y => Location_eqb x y
  | KFeature x, KFeature y => ForecastFeature_eqb x y
  | _, _ => false
  end.

(** [==] on tuples: the same length and equal elements. *)
Fixpoint key_eqb (k1 k2 : list key_item) : bool :=
  match k1, k2 with
  | [], [] => true
  | a :: k1', b :: k2' => key_item_eqb a b && key_eqb k1' k2'
  | _, _ => false
  end.

(** [tuple(tuple(locations) + tuple(features))] (line 47). *)
Definition stream_key (locations : list Location)
    (features_ : list ForecastFeature) : list key_item :=
  (KLocation <$> locations) ++ (KFeature <$> features_).

(** What a [GrpcStreamingHelper] is constructed with (lines 50-59): the key
    its name is formatted from, and the locations and the features of the
    request its stream method builds. The helper itself, its stub and its
    receivers are outside the module. *)
Record StreamingHelper : Type :=
  { helper_key : list key_item;
    request_locations : list Location_pb;
    request_features : list Z }.

(** [self._streams]: the dictionary, in insertion order. Looking a key
    up finds the entry whose key equals it. The model of the lookup is that
    of Python for a key whose coordinates are not NaN: equal keys then have
    equal hashes. *)
Definition streams_lookup (key : list key_item)
    (streams : list (list key_item * StreamingHelper))
  : option StreamingHelper :=
  snd <$> List.find (fun entry => key_eqb (fst entry) key) streams.

(** [Client.stream_live_forecast] (lines 47-60), on [self._streams]: the
    dictionary after the call, and the helper whose [new_receiver()] is
    returned. *)
Definition stream_live_forecast (locations : list Location)
    (features_ : list ForecastFeature)
    (streams : list (list key_item * StreamingHelper))
  : list (list key_item * StreamingHelper) * StreamingHelper :=
  let key := stream_key locations features_ in
  match streams_lookup key streams with
  | Some helper => (streams, helper)
  | None =>
      let helper :=
        {| helper_key := key;
           request_locations := Location_to_pb <$> locations;
           request_features := pb_value <$> features_ |} in
      (streams ++ [(key, helper)], helper)
  end.

(** ** Vocabulary of the statements *)

(** [payload[location l].forecasts[time t].features[feature f].value],
    when the payload holds that entry. *)
Definition source (location_forecasts : list LocationForecast)
    (l t f : nat) : option float :=
  lf ← location_forecasts !! l;
  fc ← forecasts lf !! t;
  ff ← features fc !! f;
  Some (value ff).

(** All locations expose the same ordered validity times, and all their
    entries the same ordered features. *)
Definition uniform (location_forecasts : list LocationForecast) : Prop :=
  exists (times : list (result datetime)) (codes : list Z),
    Forall (fun lf =>
      map (fun fc => ToDatetime (valid_at_ts fc)) (forecasts lf) = times
      /\ Forall (fun fc => map feature (features fc) = codes) (forecasts lf))
    location_forecasts.

(** The member a wire code is mapped to by [ForecastFeature.from_pb]. *)
Definition mapped_feature (code : Z) : ForecastFeature :=
  match outcome (ForecastFeature_from_pb code) with
  | Ok t => t
  | Raise _ => UNSPECIFIED
  end.

(** The equality each filter matches by. *)
Definition location_eq (req : Location) (lf : LocationForecast) : bool :=
  Location_eqb req (Location_from_pb (location lf)).

(** A validity time entry equals a requested datetime when its timestamp
    converts to that datetime. *)
Definition validity_time_eq (req : datetime) (fc : Forecast_pb) : bool :=
  match ToDatetime (valid_at_ts fc) with
  | Ok converted => req =? converted
  | Raise _ => false
  end.

Definition feature_eq (req : ForecastFeature) (ff : FeatureForecast) : bool :=
  ForecastFeature_eqb req (mapped_feature (feature ff)).

(** Specification of the resolution of one requested value: the index
    of the first entry of the template that matches, or none when no entry
    matches. *)
Inductive first_match {A} (matches : A -> bool) (template : list A)
  : option nat -> Prop :=
| first_match_at (i : nat) (x : A) :
    template !! i = Some x ->
    matches x = true ->
    (forall j y, (j < i)%nat -> template !! j = Some y -> matches y = false) ->
    first_match matches template (Some i)
| first_match_none :
    (forall y, y ∈ template -> matches y = false) ->
    first_match matches template None.

(** Specification of the resolution of a filter: in the order of the
    request, a value that matches contributes the index of its first match
    and a value that matches nothing contributes no index. *)
Inductive resolved {R A} (matches : R -> A -> bool) (template : list A)
  : list R -> list nat -> Prop :=
| resolved_nil : resolved matches template [] []
| resolved_hit (r : R) (rs : list R) (i : nat) (indexes : list nat) :
    first_match (matches r) template (Some i) ->
    resolved matches template rs indexes ->
    resolved matches template (r :: rs) (i :: indexes)
| resolved_skip (r : R) (rs : list R) (indexes : list nat) :
    first_match (matches r) template None ->
    resolved matches template rs indexes ->
    resolved matches template (r :: rs) indexes.

(** What an index list is, by the filter it comes from: the resolution
    of a filter that is truthy, the whole axis otherwise. *)
Definition selects {R A} (pm : R -> A -> bool) (filter : option (list R))
    (template : list A) (indexes : list nat) : Prop :=
  if truthy filter
  then resolved pm template (default [] filter) indexes
  else indexes = seq 0 (length template).

(** The row of one feature entry of the payload, as the specification of
    [flatten] has it: the times and coordinates of the location entry and
    of the validity time entry it lies in, the member with its code, and
    its value. *)
Definition member_of (code : Z) : ForecastFeature :=
  match ForecastFeature_call code with
  | Ok t => t
  | Raise _ => UNSPECIFIED
  end.

Definition entry_row (lf : LocationForecast) (fc : Forecast_pb)
    (ff : FeatureForecast) : row :=
  (microseconds (creation_ts lf),
   pb_latitude (location lf),
   pb_longitude (location lf),
   microseconds (valid_at_ts fc),
   member_of (feature ff),
   value ff).

(** One row per feature entry present, locations outermost, then the
    validity times of the location, then the features of the time. *)
Definition entries (location_forecasts : list LocationForecast) : list row :=
  lf ← location_forecasts;
  fc ← forecasts lf;
  entry_row lf fc <$> features fc.

(** The two printed warnings about the location and the feature axes. *)
Definition locations_or_features_warning (d : diagnostic) : bool :=
  match d with
  | Print_locations _ _ | Print_features _ _ => true
  | Log_unknown_feature _ | Print_validity_times _ _ => false
  end.

(** A wire code is known when some member has it as its value. *)
Definition known (code : Z) : Prop := exists t, pb_value t = code.

(** The wire codes of the feature entries of a payload, in the order in
    which [flatten] visits them. *)
Definition all_codes (location_forecasts : list LocationForecast) : list Z :=
  lf ← location_forecasts;
  fc ← forecasts lf;
  feature <$> features fc.

(** No member has the code: the test of [ForecastFeature.from_pb]. *)
Definition unknownb (code : Z) : bool :=
  negb (existsb (fun t => pb_value t =? code) members).

(** What keeps the row of one feature entry from being built, if anything:
    a creation time out of the range of [datetime], else a validity time out
    of that range, else a code that no member has. *)
Definition entry_error (lf : LocationForecast) (fc : Forecast_pb)
    (ff : FeatureForecast) : option exn :=
  if negb (in_range (creation_ts lf)) then Some OverflowError
  else if negb (in_range (valid_at_ts fc)) then Some OverflowError
  else if unknownb (feature ff) then Some (ValueError_enum (feature ff))
  else None.

(** The errors of the feature entries of a payload, in the order in which
    [flatten] visits the entries. *)
Definition errors (location_forecasts : list LocationForecast) : list exn :=
  lf ← location_forecasts;
  fc ← forecasts lf;
  ff ← features fc;
  option_list (entry_error lf fc ff).

(** Every timestamp of the payload lies in the range of [datetime]. *)
Definition timestamps_in_range
    (location_forecasts : list LocationForecast) : Prop :=
  Forall (fun lf =>
            in_range (creation_ts lf) = true
            /\ Forall (fun fc => in_range (valid_at_ts fc) = true)
                 (forecasts lf))
    location_forecasts.

(** What a comparison that may raise says of an entry: a comparison that
    raises has not found a match. *)
Definition says_true (r : result bool) : bool :=
  match r with
  | Ok b => b
  | Raise _ => false
  end.

(** A scan of the template stops with the exception [e]: the comparison
    with one entry raises [e], and the comparisons with the entries before
    it have returned false. *)
Definition stops_with {A} (compare : A -> result bool) (template : list A)
    (e : exn) : Prop :=
  exists i x,
    template !! i = Some x /\ compare x = Raise e
    /\ forall j y, (j < i)%nat -> template !! j = Some y -> compare y = Ok false.

(** The scan for a requested validity time reaches a timestamp out of the
    range of [datetime]: every entry before it converts to a datetime other
    than the requested one. *)
Definition overflows (req : datetime) (template : list Forecast_pb) : Prop :=
  exists i fc,
    template !! i = Some fc /\ in_range (valid_at_ts fc) = false
    /\ forall j fc',
         (j < i)%nat -> template !! j = Some fc' ->
         in_range (valid_at_ts fc') = true
         /\ microseconds (valid_at_ts fc') <> req.

(** Every location has an entry at each validity time position of the
    first location and each feature position of its first validity time. *)
Definition complete (location_forecasts : list LocationForecast)
    (lf0 : LocationForecast) (fc0 : Forecast_pb) : Prop :=
  forall l t f,
    (l < length location_forecasts)%nat ->
    (t < length (forecasts lf0))%nat -> (f < length (features fc0))%nat ->
    is_Some (source location_forecasts l t f).

(** Neither coordinate of the location is NaN. *)
Definition nan_free (l : Location) : Prop :=
  is_nan (latitude l) = false /\ is_nan (longitude l) = false.

(** ** The effect monad *)

Lemma outcome_bind {A B} (m : M A) (k : A -> M B) :
  outcome (bind m k)
  = match outcome m with
    | Ok a => outcome (k a)
    | Raise e => Raise e
    end.
Proof.
  destruct m as [out [a | e]]; simpl; [| reflexivity].
  destruct (k a) as [out' r]. reflexivity.
Qed.

Lemma emitted_bind {A B} (m : M A) (k : A -> M B) :
  emitted (bind m k)
  = match outcome m with
    | Ok a => emitted m ++ emitted (k a)
    | Raise _ => emitted m
    end.
Proof.
  destruct m as [out [a | e]]; simpl; [| reflexivity].
  destruct (k a) as [out' r]. reflexivity.
Qed.

Lemma outcome_lift {A} (r : result A) : outcome (lift r) = r.
Proof. reflexivity. Qed.

Lemma bind_lift_Ok {A B} (a : A) (k : A -> M B) : bind (lift (Ok a)) k = k a.
Proof. unfold bind, lift. destruct (k a) as [out r]. reflexivity. Qed.

Lemma outcome_try_except {A} (body : M A) :
  outcome (try_except_RuntimeError body)
  = match outcome body with
    | Ok a => Ok a
    | Raise e => Raise (RuntimeError e)
    end.
Proof. destruct body as [out [a | e]]; reflexivity. Qed.

Lemma emitted_try_except {A} (body : M A) :
  emitted (try_except_RuntimeError body) = emitted body.
Proof. destruct body as [out [a | e]]; reflexivity. Qed.

Lemma outcome_print_if (cond : bool) (d : diagnostic) :
  outcome (print_if cond d) = Ok tt.
Proof. destruct cond; reflexivity. Qed.

Lemma getitem_Ok {A} (l : list A) (i : nat) (x : A) :
  getitem l i = Ok x <-> l !! i = Some x.
Proof.
  unfold getitem. destruct (l !! i); split; intros H; congruence.
Qed.

Lemma getitem_Raise {A} (l : list A) (i : nat) (e : exn) :
  getitem l i = Raise e -> e = IndexError /\ l !! i = None.
Proof.
  unfold getitem. destruct (l !! i); intros H; [discriminate |].
  split; congruence.
Qed.

(** ** Arrays *)

Lemma np_full_shape (sh : nat * nat * nat) (v : float) :
  shape (np_full sh v) = sh.
Proof. destruct sh as [[n0 n1] n2]. reflexivity. Qed.

Lemma np_full_well_shaped (sh : nat * nat * nat) (v : float) :
  well_shaped (np_full sh v).
Proof.
  destruct sh as [[n0 n1] n2]. unfold well_shaped. simpl.
  split; [apply length_replicate |].
  apply Forall_replicate. split; [apply length_replicate |].
  apply Forall_replicate, length_replicate.
Qed.

(** Inside the shape of a well shaped array every cell is there. *)
Lemma well_shaped_lookup (a : ndarray) (n0 n1 n2 i j k : nat) :
  well_shaped a -> shape a = (n0, n1, n2) ->
  (i < n0)%nat -> (j < n1)%nat -> (k < n2)%nat ->
  exists plane row v,
    cells a !! i = Some plane /\ length plane = n1
    /\ Forall (fun r => length r = n2) plane
    /\ plane !! j = Some row /\ length row = n2 /\ row !! k = Some v.
Proof.
  unfold well_shaped. intros Hw Hs Hi Hj Hk. rewrite Hs in Hw.
  destruct Hw as [Hlen Hall].
  destruct (lookup_lt_is_Some_2 (cells a) i) as [plane Hp]; [lia |].
  pose proof (Forall_lookup_1 _ _ _ _ Hall Hp) as [Hl1 Hrows].
  destruct (lookup_lt_is_Some_2 plane j) as [r Hr]; [lia |].
  pose proof (Forall_lookup_1 _ _ _ _ Hrows Hr) as Hl2. simpl in Hl2.
  destruct (lookup_lt_is_Some_2 r k) as [v Hv]; [lia |].
  exists plane, r, v. auto 10.
Qed.

Lemma cell_is_Some (a : ndarray) (n0 n1 n2 i j k : nat) :
  well_shaped a -> shape a = (n0, n1, n2) ->
  (i < n0)%nat -> (j < n1)%nat -> (k < n2)%nat ->
  is_Some (cell a i j k).
Proof.
  intros Hw Hs Hi Hj Hk.
  destruct (well_shaped_lookup a n0 n1 n2 i j k Hw Hs Hi Hj Hk)
    as (plane & r & v & Hp & _ & _ & Hr & _ & Hv).
  unfold cell. rewrite Hp. simpl. rewrite Hr. simpl. rewrite Hv. eauto.
Qed.

Lemma setitem_Raise (a : ndarray) (i j k : nat) (v : float) (e : exn) :
  setitem a i j k v = Raise e -> e = IndexError.
Proof.
  unfold setitem. destruct (shape a) as [[n0 n1] n2].
  destruct (_ && _); intros H; congruence.
Qed.

(** An assignment inside the shape succeeds, keeps the shape, and changes
    the assigned cell only. *)
Lemma setitem_Ok (a : ndarray) (n0 n1 n2 i j k : nat) (v : float) :
  well_shaped a -> shape a = (n0, n1, n2) ->
  (i < n0)%nat -> (j < n1)%nat -> (k < n2)%nat ->
  exists a',
    setitem a i j k v = Ok a'
    /\ well_shaped a' /\ shape a' = shape a
    /\ forall i' j' k',
         cell a' i' j' k'
         = if decide (i' = i /\ j' = j /\ k' = k) then Some v
           else cell a i' j' k'.
Proof.
  intros Hw Hs Hi Hj Hk.
  destruct (well_shaped_lookup a n0 n1 n2 i j k Hw Hs Hi Hj Hk)
    as (plane & r & v0 & Hp & Hl1 & Hrows & Hr & Hl2 & Hv).
  unfold setitem. rewrite Hs.
  assert (Hb : (i <? n0)%nat && (j <? n1)%nat && (k <? n2)%nat = true).
  { rewrite !andb_true_iff, !Nat.ltb_lt. auto. }
  rewrite Hb. eexists. split; [reflexivity |]. split; [| split].
  - unfold well_shaped in *. simpl. rewrite Hs in *.
    destruct Hw as [Hlen Hall]. split; [by rewrite length_alter |].
    apply Forall_alter; [exact Hall |].
    intros plane' Hp' [Hl Hr']. split; [by rewrite length_alter |].
    apply Forall_alter; [exact Hr' |].
    intros r' _ Hlr. by rewrite length_insert.
  - reflexivity.
  - intros i' j' k'. unfold cell. simpl.
    destruct (decide (i' = i)) as [-> | Hni].
    + rewrite list_lookup_alter_eq, Hp. simpl.
      destruct (decide (j' = j)) as [-> | Hnj].
      * rewrite list_lookup_alter_eq, Hr. simpl.
        destruct (decide (k' = k)) as [-> | Hnk].
        -- rewrite list_lookup_insert_eq by lia.
           rewrite decide_True by auto. reflexivity.
        -- rewrite list_lookup_insert_ne by auto.
           rewrite decide_False by tauto. reflexivity.
      * rewrite list_lookup_alter_ne by auto.
        rewrite decide_False by tauto. reflexivity.
    + rewrite list_lookup_alter_ne by auto.
      rewrite decide_False by tauto. reflexivity.
Qed.


(** ** The population loops *)

Lemma source_Some (p : list LocationForecast) (l t f : nat) (v : float) :
  source p l t f = Some v
  <-> exists lf fc ff,
        p !! l = Some lf /\ forecasts lf !! t = Some fc
        /\ features fc !! f = Some ff /\ value ff = v.
Proof.
  unfold source. split.
  - destruct (p !! l) as [lf |] eqn:Hl; simpl; [| discriminate].
    destruct (forecasts lf !! t) as [fc |] eqn:Ht; simpl; [| discriminate].
    destruct (features fc !! f) as [ff |] eqn:Hf; simpl; [| discriminate].
    intros [= <-]. exists lf, fc, ff. auto.
  - intros (lf & fc & ff & -> & Ht & Hf & <-). simpl.
    rewrite Ht. simpl. rewrite Hf. reflexivity.
Qed.

(** One round of the innermost loop: read the entry, then assign it. *)
Lemma populate_features_cons (p : list LocationForecast)
    (l t at_ al f : nat) (rest : list nat) (af : nat) (a : ndarray) :
  populate_features p l t at_ al (f :: rest) af a
  = match source p l t f with
    | Some v =>
        a' <~ setitem a at_ al af v ;;
        populate_features p l t at_ al rest (S af) a'
    | None => Raise IndexError
    end.
Proof.
  simpl. unfold source, getitem.
  destruct (p !! l) as [lf |]; simpl; [| reflexivity].
  destruct (forecasts lf !! t) as [fc |]; simpl; [| reflexivity].
  destruct (features fc !! f) as [ff |]; reflexivity.
Qed.

Lemma populate_features_Raise (p : list LocationForecast)
    (l t at_ al : nat) (f_indexes : list nat) (af : nat) (a : ndarray)
    (e : exn) :
  populate_features p l t at_ al f_indexes af a = Raise e -> e = IndexError.
Proof.
  revert af a. induction f_indexes as [| f rest IH]; intros af a.
  - discriminate.
  - rewrite populate_features_cons.
    destruct (source p l t f) as [v |]; [| congruence].
    destruct (setitem a at_ al af v) as [a' | e'] eqn:Hset; simpl.
    + apply IH.
    + intros [= <-]. eapply setitem_Raise, Hset.
Qed.

Lemma populate_features_present (p : list LocationForecast)
    (l t at_ al : nat) (f_indexes : list nat) (af : nat) (a a' : ndarray) :
  populate_features p l t at_ al f_indexes af a = Ok a' ->
  forall f, f ∈ f_indexes -> is_Some (source p l t f).
Proof.
  revert af a. induction f_indexes as [| f rest IH]; intros af a H f' Hin.
  - by apply elem_of_nil in Hin.
  - rewrite populate_features_cons in H.
    destruct (source p l t f) as [v |] eqn:Hsrc; [| discriminate].
    destruct (setitem a at_ al af v) as [a1 |]; simpl in H; [| discriminate].
    apply elem_of_cons in Hin as [-> | Hin]; [rewrite Hsrc; eauto |].
    eapply IH; eauto.
Qed.

Lemma populate_features_Ok (p : list LocationForecast)
    (l t at_ al n0 n1 n2 : nat) (f_indexes : list nat) :
  forall (af : nat) (a : ndarray),
  well_shaped a -> shape a = (n0, n1, n2) ->
  (at_ < n0)%nat -> (al < n1)%nat -> (af + length f_indexes <= n2)%nat ->
  (forall f, f ∈ f_indexes -> is_Some (source p l t f)) ->
  exists a',
    populate_features p l t at_ al f_indexes af a = Ok a'
    /\ well_shaped a' /\ shape a' = (n0, n1, n2)
    /\ forall i j k,
         cell a' i j k
         = if decide (i = at_ /\ j = al
                      /\ (af <= k < af + length f_indexes)%nat)
           then f ← f_indexes !! (k - af)%nat; source p l t f
           else cell a i j k.
Proof.
  induction f_indexes as [| f rest IH]; intros af a Hw Hs Hat Hal Haf Hall.
  - exists a. simpl. repeat split; auto.
    intros i j k. rewrite decide_False by lia. reflexivity.
  - rewrite populate_features_cons.
    destruct (Hall f) as [v Hv]; [left |]. rewrite Hv.
    simpl in Haf.
    destruct (setitem_Ok a n0 n1 n2 at_ al af v Hw Hs) as
      (a1 & Hset & Hw1 & Hs1 & Hc1); [lia .. |].
    rewrite Hset. simpl. rewrite Hs in Hs1.
    destruct (IH (S af) a1 Hw1 Hs1) as (a' & Hpop & Hw' & Hs' & Hc');
      [lia .. | |].
    { intros f' Hin. apply Hall. by right. }
    exists a'. repeat split; auto.
    intros i j k. rewrite Hc', Hc1.
    repeat case_decide; try lia; try reflexivity.
    + replace (k - af)%nat with (S (k - S af)) by lia. reflexivity.
    + destruct_and!. subst. rewrite Nat.sub_diag. simpl. by rewrite Hv.
Qed.


Lemma populate_times_Raise (p : list LocationForecast)
    (l al : nat) (t_indexes : list nat) (at_ : nat) (f_indexes : list nat)
    (a : ndarray) (e : exn) :
  populate_times p l al t_indexes at_ f_indexes a = Raise e -> e = IndexError.
Proof.
  revert at_ a. induction t_indexes as [| t rest IH]; intros at_ a; simpl.
  - discriminate.
  - destruct (populate_features p l t at_ al f_indexes 0 a)
      as [a1 | e1] eqn:Hf; simpl.
    + apply IH.
    + intros [= <-]. eapply populate_features_Raise, Hf.
Qed.

Lemma populate_times_present (p : list LocationForecast)
    (l al : nat) (t_indexes : list nat) (at_ : nat) (f_indexes : list nat)
    (a a' : ndarray) :
  populate_times p l al t_indexes at_ f_indexes a = Ok a' ->
  forall t f, t ∈ t_indexes -> f ∈ f_indexes -> is_Some (source p l t f).
Proof.
  revert at_ a. induction t_indexes as [| t rest IH];
    intros at_ a H t' f Ht Hf; simpl in H.
  - by apply elem_of_nil in Ht.
  - destruct (populate_features p l t at_ al f_indexes 0 a)
      as [a1 |] eqn:Hpf; simpl in H; [| discriminate].
    apply elem_of_cons in Ht as [-> | Ht].
    + eapply populate_features_present; eauto.
    + eapply IH; eauto.
Qed.

Lemma populate_times_Ok (p : list LocationForecast)
    (l al n0 n1 n2 : nat) (t_indexes f_indexes : list nat) :
  forall (at_ : nat) (a : ndarray),
  well_shaped a -> shape a = (n0, n1, n2) ->
  (at_ + length t_indexes <= n0)%nat -> (al < n1)%nat ->
  (length f_indexes <= n2)%nat ->
  (forall t f, t ∈ t_indexes -> f ∈ f_indexes -> is_Some (source p l t f)) ->
  exists a',
    populate_times p l al t_indexes at_ f_indexes a = Ok a'
    /\ well_shaped a' /\ shape a' = (n0, n1, n2)
    /\ forall i j k,
         cell a' i j k
         = if decide ((at_ <= i < at_ + length t_indexes)%nat /\ j = al
                      /\ (k < length f_indexes)%nat)
           then t ← t_indexes !! (i - at_)%nat;
                f ← f_indexes !! k; source p l t f
           else cell a i j k.
Proof.
  induction t_indexes as [| t rest IH]; intros at_ a Hw Hs Hat Hal Hf Hall.
  - exists a. simpl. repeat split; auto.
    intros i j k. rewrite decide_False by lia. reflexivity.
  - simpl in Hat. simpl.
    destruct (populate_features_Ok p l t at_ al n0 n1 n2 f_indexes 0 a Hw Hs)
      as (a1 & Hpf & Hw1 & Hs1 & Hc1); [lia .. | |].
    { intros f Hin. apply Hall; [left | exact Hin]. }
    rewrite Hpf. simpl.
    destruct (IH (S at_) a1 Hw1 Hs1) as (a' & Hpop & Hw' & Hs' & Hc');
      [lia .. | |].
    { intros t' f Ht' Hin. apply Hall; [by right | exact Hin]. }
    exists a'. repeat split; auto.
    intros i j k. rewrite Hc', Hc1.
    repeat case_decide; try lia; try reflexivity.
    + replace (i - at_)%nat with (S (i - S at_)) by lia. reflexivity.
    + destruct_and!. subst. rewrite Nat.sub_diag, Nat.sub_0_r. reflexivity.
Qed.

Lemma populate_locations_Raise (p : list LocationForecast)
    (l_indexes : list nat) (al : nat) (t_indexes f_indexes : list nat)
    (a : ndarray) (e : exn) :
  populate_locations p l_indexes al t_indexes f_indexes a = Raise e ->
  e = IndexError.
Proof.
  revert al a. induction l_indexes as [| l rest IH]; intros al a; simpl.
  - discriminate.
  - destruct (populate_times p l al t_indexes 0 f_indexes a)
      as [a1 | e1] eqn:Ht; simpl.
    + apply IH.
    + intros [= <-]. eapply populate_times_Raise, Ht.
Qed.

(** A population that returns has found every selected entry. *)
Lemma populate_locations_present (p : list LocationForecast)
    (l_indexes : list nat) (al : nat) (t_indexes f_indexes : list nat)
    (a a' : ndarray) :
  populate_locations p l_indexes al t_indexes f_indexes a = Ok a' ->
  forall l t f,
    l ∈ l_indexes -> t ∈ t_indexes -> f ∈ f_indexes ->
    is_Some (source p l t f).
Proof.
  revert al a. induction l_indexes as [| l rest IH];
    intros al a H l' t f Hl Ht Hf; simpl in H.
  - by apply elem_of_nil in Hl.
  - destruct (populate_times p l al t_indexes 0 f_indexes a)
      as [a1 |] eqn:Hpt; simpl in H; [| discriminate].
    apply elem_of_cons in Hl as [-> | Hl].
    + eapply populate_times_present; eauto.
    + eapply IH; eauto.
Qed.

(** When every selected entry is there the population returns, and has
    assigned to each cell in the range of the three index lists the entry
    its indexes select. *)
Lemma populate_locations_Ok (p : list LocationForecast)
    (n0 n1 n2 : nat) (l_indexes t_indexes f_indexes : list nat) :
  forall (al : nat) (a : ndarray),
  well_shaped a -> shape a = (n0, n1, n2) ->
  (length t_indexes <= n0)%nat -> (al + length l_indexes <= n1)%nat ->
  (length f_indexes <= n2)%nat ->
  (forall l t f,
     l ∈ l_indexes -> t ∈ t_indexes -> f ∈ f_indexes ->
     is_Some (source p l t f)) ->
  exists a',
    populate_locations p l_indexes al t_indexes f_indexes a = Ok a'
    /\ well_shaped a' /\ shape a' = (n0, n1, n2)
    /\ forall i j k,
         cell a' i j k
         = if decide ((i < length t_indexes)%nat
                      /\ (al <= j < al + length l_indexes)%nat
                      /\ (k < length f_indexes)%nat)
           then l ← l_indexes !! (j - al)%nat;
                t ← t_indexes !! i;
                f ← f_indexes !! k; source p l t f
           else cell a i j k.
Proof.
  induction l_indexes as [| l rest IH]; intros al a Hw Hs Ht Hal Hf Hall.
  - exists a. simpl. repeat split; auto.
    intros i j k. rewrite decide_False by lia. reflexivity.
  - simpl in Hal. simpl.
    destruct (populate_times_Ok p l al n0 n1 n2 t_indexes f_indexes 0 a Hw Hs)
      as (a1 & Hpt & Hw1 & Hs1 & Hc1); [lia .. | |].
    { intros t f Hint Hinf. apply Hall; [left | exact Hint | exact Hinf]. }
    rewrite Hpt. simpl.
    destruct (IH (S al) a1 Hw1 Hs1) as (a' & Hpop & Hw' & Hs' & Hc');
      [lia .. | |].
    { intros l' t f Hl' Hint Hinf. apply Hall; [by right | done | done]. }
    exists a'. repeat split; auto.
    intros i j k. rewrite Hc', Hc1.
    repeat case_decide; try lia; try reflexivity.
    + replace (j - al)%nat with (S (j - S al)) by lia. reflexivity.
    + destruct_and!. subst. rewrite Nat.sub_diag, Nat.sub_0_r. reflexivity.
Qed.


(** ** The enum and its conversion *)

Lemma all_members (t : ForecastFeature) : In t members.
Proof. destruct t; simpl; tauto. Qed.

Lemma existsb_known (code : Z) :
  existsb (fun t => pb_value t =? code) members = true <-> known code.
Proof.
  rewrite existsb_exists. unfold known. split.
  - intros (t & _ & Ht). exists t. by apply Z.eqb_eq.
  - intros (t & Ht). exists t. split; [apply all_members | by apply Z.eqb_eq].
Qed.

Lemma ForecastFeature_call_known (code : Z) :
  known code ->
  exists t, ForecastFeature_call code = Ok t /\ pb_value t = code.
Proof.
  intros (t & Ht). unfold ForecastFeature_call.
  destruct (List.find _ members) as [t' |] eqn:Hfind.
  - exists t'. split; [reflexivity |].
    apply find_some in Hfind as [_ Heq]. by apply Z.eqb_eq.
  - exfalso. pose proof (find_none _ _ Hfind t (all_members t)) as Hne.
    simpl in Hne. apply Z.eqb_neq in Hne. contradiction.
Qed.

Lemma ForecastFeature_call_unknown (code : Z) :
  ~ known code -> ForecastFeature_call code = Raise (ValueError_enum code).
Proof.
  intros Hun. unfold ForecastFeature_call.
  destruct (List.find _ members) as [t' |] eqn:Hfind; [| reflexivity].
  exfalso. apply Hun. exists t'.
  apply find_some in Hfind as [_ Heq]. by apply Z.eqb_eq.
Qed.

Lemma ForecastFeature_from_pb_known (code : Z) :
  known code ->
  exists t,
    ForecastFeature_from_pb code = ([], Ok t) /\ pb_value t = code.
Proof.
  intros Hk. unfold ForecastFeature_from_pb.
  pose proof (proj2 (existsb_known code) Hk) as ->. simpl.
  destruct (ForecastFeature_call_known code Hk) as (t & -> & Ht).
  exists t. split; [reflexivity | exact Ht].
Qed.

Lemma ForecastFeature_from_pb_unknown (code : Z) :
  ~ known code ->
  ForecastFeature_from_pb code = ([Log_unknown_feature code], Ok UNSPECIFIED).
Proof.
  intros Hun. unfold ForecastFeature_from_pb.
  destruct (existsb _ members) eqn:Hex; [| reflexivity].
  exfalso. by apply Hun, existsb_known.
Qed.

Lemma known_dec (code : Z) : known code \/ ~ known code.
Proof.
  destruct (existsb (fun t => pb_value t =? code) members) eqn:Hex.
  - left. by apply existsb_known.
  - right. intros Hk. apply existsb_known in Hk. congruence.
Qed.

Lemma outcome_from_pb (code : Z) :
  outcome (ForecastFeature_from_pb code) = Ok (mapped_feature code).
Proof.
  unfold mapped_feature.
  destruct (known_dec code) as [Hk | Hun].
  - destruct (ForecastFeature_from_pb_known code Hk) as (t & -> & _).
    reflexivity.
  - by rewrite ForecastFeature_from_pb_unknown.
Qed.

(** ** Resolution of the filters *)

Lemma first_match_lt {A} (pm : A -> bool) (template : list A) (i : nat) :
  first_match pm template (Some i) -> (i < length template)%nat.
Proof. inversion 1; subst. eapply lookup_lt_Some; eauto. Qed.

(** The specification fixes the answer. *)
Lemma first_match_unique {A} (pm : A -> bool) (template : list A)
    (o1 o2 : option nat) :
  first_match pm template o1 -> first_match pm template o2 -> o1 = o2.
Proof.
  intros H1 H2.
  destruct H1 as [i x Hx Hm Hbefore | Hnone];
    destruct H2 as [i' x' Hx' Hm' Hbefore' | Hnone'].
  - f_equal. destruct (Nat.lt_trichotomy i i') as [Hlt | [-> | Hlt]].
    + pose proof (Hbefore' _ _ Hlt Hx). congruence.
    + reflexivity.
    + pose proof (Hbefore _ _ Hlt Hx'). congruence.
  - pose proof (Hnone' x (list_elem_of_lookup_2 _ _ _ Hx)). congruence.
  - pose proof (Hnone x' (list_elem_of_lookup_2 _ _ _ Hx')). congruence.
  - reflexivity.
Qed.

Lemma resolved_unique {R A} (pm : R -> A -> bool) (template : list A)
    (requested : list R) (l1 l2 : list nat) :
  resolved pm template requested l1 -> resolved pm template requested l2 ->
  l1 = l2.
Proof.
  intros H1. revert l2.
  induction H1 as [| r rs i l1 Hf _ IH | r rs l1 Hf _ IH]; intros l2 H2.
  - by inversion H2.
  - inversion H2 as [| r' rs' i' l2' Hf' Hr' | r' rs' l2' Hf' Hr']; subst.
    + pose proof (first_match_unique _ _ _ _ Hf Hf') as [= ->].
      f_equal. by apply IH.
    + pose proof (first_match_unique _ _ _ _ Hf Hf'). discriminate.
  - inversion H2 as [| r' rs' i' l2' Hf' Hr' | r' rs' l2' Hf' Hr']; subst.
    + pose proof (first_match_unique _ _ _ _ Hf Hf'). discriminate.
    + by apply IH.
Qed.

Lemma resolved_bound {R A} (pm : R -> A -> bool) (template : list A)
    (requested : list R) (indexes : list nat) :
  resolved pm template requested indexes ->
  forall i, i ∈ indexes -> (i < length template)%nat.
Proof.
  induction 1 as [| r rs i l Hf _ IH | r rs l Hf _ IH]; intros i' Hin.
  - by apply elem_of_nil in Hin.
  - apply elem_of_cons in Hin as [-> | Hin]; [| by apply IH].
    eapply first_match_lt, Hf.
  - by apply IH.
Qed.

Lemma resolved_length {R A} (pm : R -> A -> bool) (template : list A)
    (requested : list R) (indexes : list nat) :
  resolved pm template requested indexes ->
  (length indexes <= length requested)%nat.
Proof. induction 1; simpl; lia. Qed.

(** One requested value that matches nothing makes the list of indexes
    strictly shorter than the request. *)
Lemma resolved_length_lt {R A} (pm : R -> A -> bool) (template : list A)
    (requested : list R) (indexes : list nat) (r : R) :
  resolved pm template requested indexes ->
  r ∈ requested -> (forall y, y ∈ template -> pm r y = false) ->
  (length indexes < length requested)%nat.
Proof.
  intros Hres Hin Hnone.
  induction Hres as [| r' rs i l Hf Hrest IH | r' rs l Hf Hrest IH]; simpl.
  - by apply elem_of_nil in Hin.
  - apply elem_of_cons in Hin as [-> | Hin].
    + inversion Hf as [i' x Hx Hm _ |]; subst.
      pose proof (Hnone x (list_elem_of_lookup_2 _ _ _ Hx)). congruence.
    + specialize (IH Hin). lia.
  - pose proof (resolved_length _ _ _ _ Hrest). lia.
Qed.

Lemma resolved_app {R A} (pm : R -> A -> bool) (template : list A)
    (r1 r2 : list R) (l1 l2 : list nat) :
  resolved pm template r1 l1 -> resolved pm template r2 l2 ->
  resolved pm template (r1 ++ r2) (l1 ++ l2).
Proof.
  intros H1 H2. induction H1; simpl; [exact H2 | |].
  - by apply resolved_hit.
  - by apply resolved_skip.
Qed.

Lemma resolved_length_lt_iff {R A} (pm : R -> A -> bool) (template : list A)
    (requested : list R) (indexes : list nat) :
  resolved pm template requested indexes ->
  (length indexes < length requested)%nat
  <-> exists r, r ∈ requested /\ forall y, y ∈ template -> pm r y = false.
Proof.
  intros Hres. split.
  - induction Hres as [| r rs i l Hf Hrest IH | r rs l Hf Hrest IH];
      simpl; intros Hlt.
    + lia.
    + destruct IH as (r' & Hin & Hnone); [lia |].
      exists r'. split; [by right | exact Hnone].
    + exists r. split; [left |]. by inversion Hf.
  - intros (r & Hin & Hnone). eapply resolved_length_lt; eauto.
Qed.

Lemma resolved_elem {R A} (pm : R -> A -> bool) (template : list A)
    (requested : list R) (indexes : list nat) (i : nat) :
  resolved pm template requested indexes -> i ∈ indexes ->
  exists r, r ∈ requested /\ first_match (pm r) template (Some i).
Proof.
  induction 1 as [| r rs j l Hf _ IH | r rs l Hf _ IH]; intros Hin.
  - by apply elem_of_nil in Hin.
  - apply elem_of_cons in Hin as [-> | Hin].
    + exists r. split; [left | exact Hf].
    + destruct (IH Hin) as (r' & Hr' & Hf'). exists r'. split; [by right | done].
  - destruct (IH Hin) as (r' & Hr' & Hf'). exists r'. split; [by right | done].
Qed.

(** ** Timestamps *)

Lemma ToDatetime_Ok (ts : Timestamp) (t : datetime) :
  ToDatetime ts = Ok t <-> in_range ts = true /\ t = microseconds ts.
Proof.
  unfold ToDatetime. destruct (in_range ts); split.
  - intros [= <-]. auto.
  - intros [_ ->]. reflexivity.
  - discriminate.
  - intros [? _]. discriminate.
Qed.

Lemma ToDatetime_Raise (ts : Timestamp) (e : exn) :
  ToDatetime ts = Raise e <-> in_range ts = false /\ e = OverflowError.
Proof.
  unfold ToDatetime. destruct (in_range ts); split.
  - discriminate.
  - intros [? _]. discriminate.
  - intros [= <-]. auto.
  - intros [_ ->]. reflexivity.
Qed.

(** ** The scan and the resolution, for a comparison that may raise *)

Section Scan.

Context {R A : Type}.
Variable matches : R -> A -> M bool.
Variable pm : R -> A -> bool.
Hypothesis matches_pm : forall r x, says_true (outcome (matches r x)) = pm r x.

(** The scan either returns the first match, counted from its start, and
    then no comparison it made has raised; or it raises what the first
    comparison that raises has raised, no entry before it matching. *)
Lemma scan_cases (r : R) (template : list A) :
  forall start,
    (exists o,
       outcome (scan (matches r) template start)
       = Ok ((fun i => (start + i)%nat) <$> o)
       /\ first_match (pm r) template o
       /\ forall e,
            ~ stops_with (fun x => outcome (matches r x)) template e)
    \/ (exists e,
          outcome (scan (matches r) template start) = Raise e
          /\ stops_with (fun x => outcome (matches r x)) template e).
Proof.
  induction template as [| x rest IH]; intros start; simpl.
  - left. exists None. split; [reflexivity |]. split.
    + apply first_match_none. intros y Hy. by apply elem_of_nil in Hy.
    + intros e (i & y & Hy & _). by rewrite lookup_nil in Hy.
  - rewrite outcome_bind. pose proof (matches_pm r x) as Hx.
    destruct (outcome (matches r x)) as [[|] | e] eqn:Hout; simpl in Hx.
    + left. exists (Some 0%nat). simpl. rewrite Nat.add_0_r.
      split; [reflexivity |]. split.
      * apply (first_match_at _ _ 0%nat x); [reflexivity | by rewrite <- Hx | lia].
      * intros e (i & y & Hy & Hraise & Hbefore). destruct i as [| i].
        -- simpl in Hy. injection Hy as <-. congruence.
        -- specialize (Hbefore 0%nat x ltac:(lia) eq_refl). congruence.
    + destruct (IH (S start))
        as [(o & Hscan & Hfirst & Hno) | (e & Hscan & Hstop)].
      * left. rewrite Hscan.
        assert (Hno' : forall e,
                  ~ stops_with (fun y => outcome (matches r y)) (x :: rest) e).
        { intros e (i & y & Hy & Hraise & Hbefore). destruct i as [| i].
          - simpl in Hy. injection Hy as <-. congruence.
          - apply (Hno e). exists i, y. repeat split; auto.
            intros j z Hj Hz. apply (Hbefore (S j) z); [lia | exact Hz]. }
        destruct Hfirst as [i y Hy Hm Hbefore | Hnone].
        -- exists (Some (S i)). simpl. split; [f_equal; f_equal; lia |].
           split; [| exact Hno'].
           apply (first_match_at _ _ (S i) y); [exact Hy | exact Hm |].
           intros [| j] z Hj Hz; simpl in Hz.
           ++ injection Hz as <-. by rewrite <- Hx.
           ++ eapply Hbefore; [| exact Hz]. lia.
        -- exists None. split; [reflexivity |]. split; [| exact Hno'].
           apply first_match_none. intros z Hz.
           apply elem_of_cons in Hz as [-> | Hz];
             [by rewrite <- Hx | by apply Hnone].
      * right. exists e. split; [exact Hscan |].
        destruct Hstop as (i & y & Hy & Hraise & Hbefore).
        exists (S i), y. repeat split; auto.
        intros [| j] z Hj Hz; simpl in Hz.
        -- injection Hz as <-. exact Hout.
        -- apply (Hbefore j z); [lia | exact Hz].
    + right. exists e. split; [reflexivity |].
      exists 0%nat, x. repeat split; auto. intros j y Hj. lia.
Qed.

(** The resolution either returns, having appended what the specification
    says, and then no scan has raised; or it raises what the scan of a
    requested value has raised. *)
Lemma resolve_cases (requested : list R) (template : list A) :
  forall acc,
    (exists indexes,
       outcome (resolve matches requested template acc) = Ok (acc ++ indexes)
       /\ resolved pm template requested indexes
       /\ forall r e,
            r ∈ requested ->
            ~ stops_with (fun x => outcome (matches r x)) template e)
    \/ (exists r e,
          r ∈ requested
          /\ outcome (resolve matches requested template acc) = Raise e
          /\ stops_with (fun x => outcome (matches r x)) template e).
Proof.
  induction requested as [| r rest IH]; intros acc; simpl.
  - left. exists []. rewrite app_nil_r. split; [reflexivity |].
    split; [constructor |]. intros r e Hr. by apply elem_of_nil in Hr.
  - rewrite outcome_bind.
    destruct (scan_cases r template 0)
      as [(o & -> & Hfirst & Hno) | (e & -> & Hstop)].
    + assert (Hcons :
                (forall r' e,
                   r' ∈ rest ->
                   ~ stops_with (fun x => outcome (matches r' x)) template e) ->
                forall r' e,
                  r' ∈ r :: rest ->
                  ~ stops_with (fun x => outcome (matches r' x)) template e).
      { intros Hrest r' e Hr'.
        apply elem_of_cons in Hr' as [-> | Hr']; [apply Hno | by apply Hrest]. }
      destruct o as [i |]; simpl.
      * destruct (IH (acc ++ [i]))
          as [(l & -> & Hres & Hnone) | (r' & e & Hr' & -> & Hstop)].
        -- left. exists (i :: l). rewrite <- app_assoc.
           split; [reflexivity |]. split; [by apply resolved_hit |].
           by apply Hcons.
        -- right. exists r', e. split; [by right | auto].
      * destruct (IH acc)
          as [(l & -> & Hres & Hnone) | (r' & e & Hr' & -> & Hstop)].
        -- left. exists l. split; [reflexivity |].
           split; [by apply resolved_skip |]. by apply Hcons.
        -- right. exists r', e. split; [by right | auto].
    + right. exists r, e. split; [left | auto].
Qed.

(** The resolution returns a list exactly when no scan raises and the
    list is the one of the specification. *)
Lemma resolve_outcome_resolved (requested : list R) (template : list A)
    (indexes : list nat) :
  outcome (resolve matches requested template []) = Ok indexes
  <-> resolved pm template requested indexes
      /\ forall r e,
           r ∈ requested ->
           ~ stops_with (fun x => outcome (matches r x)) template e.
Proof.
  destruct (resolve_cases requested template [])
    as [(l & Hl & Hres & Hnone) | (r & e & Hr & Hl & Hstop)];
    simpl in Hl; rewrite Hl; split.
  - intros [= <-]. auto.
  - intros [Hres' _]. f_equal. eapply resolved_unique; eauto.
  - discriminate.
  - intros [_ Hnone]. exfalso. by apply (Hnone r e).
Qed.

Lemma resolve_app (r1 r2 : list R) (template : list A) (l1 l2 : list nat) :
  outcome (resolve matches r1 template []) = Ok l1 ->
  outcome (resolve matches r2 template []) = Ok l2 ->
  outcome (resolve matches (r1 ++ r2) template []) = Ok (l1 ++ l2).
Proof.
  rewrite !resolve_outcome_resolved. intros [H1 Hn1] [H2 Hn2].
  split; [by apply resolved_app |].
  intros r e Hr. apply elem_of_app in Hr as [Hr | Hr]; auto.
Qed.

(** A comparison that never raises: the resolution returns. *)
Lemma resolve_resolved (requested : list R) (template : list A) :
  (forall r x, exists b, outcome (matches r x) = Ok b) ->
  exists indexes,
    outcome (resolve matches requested template []) = Ok indexes
    /\ resolved pm template requested indexes.
Proof.
  intros Htotal.
  destruct (resolve_cases requested template [])
    as [(l & Hl & Hres & _) | (r & e & _ & _ & Hstop)].
  - exists l. auto.
  - destruct Hstop as (i & x & _ & Hraise & _).
    destruct (Htotal r x) as [b Hb]. congruence.
Qed.

End Scan.

Lemma says_location_matches (r : Location) (x : LocationForecast) :
  says_true (outcome (location_matches r x)) = location_eq r x.
Proof. reflexivity. Qed.

Lemma outcome_validity_time_matches (r : datetime) (x : Forecast_pb) :
  outcome (validity_time_matches r x)
  = if in_range (valid_at_ts x)
    then Ok (r =? microseconds (valid_at_ts x))
    else Raise OverflowError.
Proof.
  unfold validity_time_matches, ToDatetime.
  destruct (in_range (valid_at_ts x)); reflexivity.
Qed.

Lemma validity_time_eq_true (r : datetime) (x : Forecast_pb) :
  validity_time_eq r x = true
  <-> in_range (valid_at_ts x) = true /\ microseconds (valid_at_ts x) = r.
Proof.
  unfold validity_time_eq, ToDatetime.
  destruct (in_range (valid_at_ts x)).
  - rewrite Z.eqb_eq. split; [intros ->; auto | intros [_ ->]; reflexivity].
  - split; [discriminate | intros [? _]; discriminate].
Qed.

Lemma says_validity_time_matches (r : datetime) (x : Forecast_pb) :
  says_true (outcome (validity_time_matches r x)) = validity_time_eq r x.
Proof.
  rewrite outcome_validity_time_matches. unfold validity_time_eq, ToDatetime.
  destruct (in_range (valid_at_ts x)); reflexivity.
Qed.

Lemma outcome_feature_matches (r : ForecastFeature) (x : FeatureForecast) :
  outcome (feature_matches r x) = Ok (feature_eq r x).
Proof.
  unfold feature_matches. rewrite outcome_bind, outcome_from_pb. reflexivity.
Qed.

Lemma says_feature_matches (r : ForecastFeature) (x : FeatureForecast) :
  says_true (outcome (feature_matches r x)) = feature_eq r x.
Proof. by rewrite outcome_feature_matches. Qed.

(** The scan for a validity time stops with an exception exactly when it
    reaches a timestamp out of range, and the exception is then
    [OverflowError]. *)
Lemma stops_with_overflows (r : datetime) (template : list Forecast_pb)
    (e : exn) :
  stops_with (fun x => outcome (validity_time_matches r x)) template e
  <-> e = OverflowError /\ overflows r template.
Proof.
  unfold stops_with, overflows. split.
  - intros (i & fc & Hfc & Hraise & Hbefore).
    rewrite outcome_validity_time_matches in Hraise.
    destruct (in_range (valid_at_ts fc)) eqn:Hin; [discriminate |].
    injection Hraise as <-. split; [reflexivity |].
    exists i, fc. repeat split; auto.
    + specialize (Hbefore j fc' H H0).
      rewrite outcome_validity_time_matches in Hbefore.
      by destruct (in_range (valid_at_ts fc')).
    + specialize (Hbefore j fc' H H0).
      rewrite outcome_validity_time_matches in Hbefore.
      destruct (in_range (valid_at_ts fc')); [| discriminate].
      injection Hbefore as Hne. apply Z.eqb_neq in Hne. congruence.
  - intros [-> (i & fc & Hfc & Hin & Hbefore)].
    exists i, fc. split; [exact Hfc |]. split.
    + by rewrite outcome_validity_time_matches, Hin.
    + intros j fc' Hj Hfc'. destruct (Hbefore j fc' Hj Hfc') as [Hin' Hne].
      rewrite outcome_validity_time_matches, Hin'. f_equal.
      apply Z.eqb_neq. congruence.
Qed.

(** With every timestamp of the template in range no scan overflows. *)
Lemma in_range_no_overflow (r : datetime) (template : list Forecast_pb) :
  Forall (fun fc => in_range (valid_at_ts fc) = true) template ->
  ~ overflows r template.
Proof.
  intros Hall (i & fc & Hfc & Hin & _). rewrite Forall_forall in Hall.
  pose proof (Hall fc (list_elem_of_lookup_2 _ _ _ Hfc)). congruence.
Qed.

Lemma selects_bound {R A} (pm : R -> A -> bool) (filter : option (list R))
    (template : list A) (indexes : list nat) :
  selects pm filter template indexes ->
  forall i, i ∈ indexes -> (i < length template)%nat.
Proof.
  unfold selects. destruct (truthy filter).
  - apply resolved_bound.
  - intros -> i Hi. apply elem_of_seq in Hi. lia.
Qed.

Lemma location_indexes_selects (locations : option (list Location))
    (p : list LocationForecast) :
  exists indexes,
    outcome (location_indexes locations p) = Ok indexes
    /\ selects location_eq locations p indexes.
Proof.
  unfold location_indexes, selects. destruct (truthy locations).
  - apply (resolve_resolved location_matches location_eq
             says_location_matches).
    intros r x. eexists. reflexivity.
  - eauto.
Qed.

Lemma feature_indexes_selects (features_filter : option (list ForecastFeature))
    (template : list FeatureForecast) :
  exists indexes,
    outcome (feature_indexes features_filter template) = Ok indexes
    /\ selects feature_eq features_filter template indexes.
Proof.
  unfold feature_indexes, selects. destruct (truthy features_filter).
  - apply (resolve_resolved feature_matches feature_eq says_feature_matches).
    intros r x. eexists. apply outcome_feature_matches.
  - eauto.
Qed.

(** The index list of the validity times: the list of the specification
    when no scan overflows, [OverflowError] when the scan of a requested
    time does. *)
Lemma validity_times_indexes_cases (validity_times : option (list datetime))
    (template : list Forecast_pb) :
  (exists indexes,
     outcome (validity_times_indexes validity_times template) = Ok indexes
     /\ selects validity_time_eq validity_times template indexes
     /\ (truthy validity_times = true ->
         forall r, r ∈ default [] validity_times -> ~ overflows r template))
  \/ (truthy validity_times = true
      /\ outcome (validity_times_indexes validity_times template)
         = Raise OverflowError
      /\ exists r, r ∈ default [] validity_times /\ overflows r template).
Proof.
  unfold validity_times_indexes, selects.
  destruct (truthy validity_times); [| left; eexists; by eauto].
  destruct (resolve_cases validity_time_matches validity_time_eq
              says_validity_time_matches (default [] validity_times)
              template [])
    as [(l & Hl & Hres & Hnone) | (r & e & Hr & Hl & Hstop)].
  - left. exists l. repeat split; auto.
    intros _ r Hr Hover. apply (Hnone r OverflowError Hr).
    by apply stops_with_overflows.
  - right. apply stops_with_overflows in Hstop as [-> Hover]. eauto.
Qed.

Lemma validity_times_indexes_Ok (validity_times : option (list datetime))
    (template : list Forecast_pb) (indexes : list nat) :
  outcome (validity_times_indexes validity_times template) = Ok indexes ->
  selects validity_time_eq validity_times template indexes.
Proof.
  intros H.
  destruct (validity_times_indexes_cases validity_times template)
    as [(l & Hl & Hsel & _) | (_ & Hraise & _)]; congruence.
Qed.

Lemma validity_times_indexes_Raise (validity_times : option (list datetime))
    (template : list Forecast_pb) (e : exn) :
  outcome (validity_times_indexes validity_times template) = Raise e ->
  e = OverflowError
  /\ truthy validity_times = true
  /\ exists r, r ∈ default [] validity_times /\ overflows r template.
Proof.
  intros H.
  destruct (validity_times_indexes_cases validity_times template)
    as [(l & Hl & _) | (Htr & Hraise & Hover)]; [congruence |].
  split; [congruence | auto].
Qed.

(** With the timestamps of the template in range, or without a truthy
    filter, the resolution of the validity times returns. *)
Lemma validity_times_indexes_selects (validity_times : option (list datetime))
    (template : list Forecast_pb) :
  (truthy validity_times = true ->
   Forall (fun fc => in_range (valid_at_ts fc) = true) template) ->
  exists indexes,
    outcome (validity_times_indexes validity_times template) = Ok indexes
    /\ selects validity_time_eq validity_times template indexes.
Proof.
  intros Hrange.
  destruct (validity_times_indexes_cases validity_times template)
    as [(l & Hl & Hsel & _) | (Htr & _ & r & _ & Hover)]; [eauto |].
  exfalso. by apply (in_range_no_overflow r template (Hrange Htr)).
Qed.

(** ** to_ndarray_vlf *)

Lemma outcome_shape_warnings vt locs feats
    (t_indexes l_indexes f_indexes : list nat) (a : ndarray) :
  outcome (shape_warnings vt locs feats t_indexes l_indexes f_indexes a)
  = Ok tt.
Proof.
  unfold shape_warnings. destruct (shape a) as [[n0 n1] n2].
  rewrite !outcome_bind, !outcome_print_if. reflexivity.
Qed.

(** The outcome of a call on a payload that has a first entry: that of
    the population over the three index lists, its exception wrapped. *)
Lemma outcome_to_ndarray_vlf vt locs feats
    (p : list LocationForecast) (lf0 : LocationForecast) (fc0 : Forecast_pb)
    (l_indexes t_indexes f_indexes : list nat) :
  p !! 0%nat = Some lf0 -> forecasts lf0 !! 0%nat = Some fc0 ->
  outcome (location_indexes locs p) = Ok l_indexes ->
  outcome (validity_times_indexes vt (forecasts lf0)) = Ok t_indexes ->
  outcome (feature_indexes feats (features fc0)) = Ok f_indexes ->
  outcome (to_ndarray_vlf vt locs feats p)
  = match populate_locations p l_indexes 0 t_indexes f_indexes
            (np_full (length t_indexes, length l_indexes, length f_indexes)
               nan) with
    | Ok a => Ok a
    | Raise e => Raise (RuntimeError e)
    end.
Proof.
  intros Hp Hfc Hl Ht Hf. unfold to_ndarray_vlf.
  destruct p as [| lf p']; [discriminate |].
  rewrite outcome_try_except. unfold to_ndarray_vlf_body.
  rewrite (proj2 (getitem_Ok _ _ _) Hp), bind_lift_Ok.
  rewrite (proj2 (getitem_Ok _ _ _) Hfc), bind_lift_Ok.
  rewrite outcome_bind, Hl, outcome_bind, Ht, outcome_bind, Hf.
  rewrite outcome_bind, outcome_lift.
  destruct (populate_locations _ _ _ _ _ _) as [a | e]; [| reflexivity].
  rewrite outcome_bind, outcome_shape_warnings. reflexivity.
Qed.

(** A first location without validity times: the second line of the body
    raises, whatever the filters. *)
Lemma to_ndarray_vlf_no_times vt locs feats
    (lf0 : LocationForecast) (rest : list LocationForecast) :
  forecasts lf0 = [] ->
  to_ndarray_vlf vt locs feats (lf0 :: rest)
  = ([], Raise (RuntimeError IndexError)).
Proof.
  intros H. unfold to_ndarray_vlf, to_ndarray_vlf_body. simpl.
  rewrite H. reflexivity.
Qed.

(** The three facts the statements about [to_ndarray_vlf] rest on. On a
    payload with a first entry, and for the index lists of the filters:
    the call returns exactly when the payload holds every selected entry;
    the array returned has the lengths of the index lists as its shape and
    the selected entries as its cells; the only exception is the wrapped
    [IndexError]. *)
Lemma to_ndarray_vlf_selected vt locs feats
    (p : list LocationForecast) (lf0 : LocationForecast) (fc0 : Forecast_pb)
    (l_indexes t_indexes f_indexes : list nat) :
  p !! 0%nat = Some lf0 -> forecasts lf0 !! 0%nat = Some fc0 ->
  outcome (location_indexes locs p) = Ok l_indexes ->
  outcome (validity_times_indexes vt (forecasts lf0)) = Ok t_indexes ->
  outcome (feature_indexes feats (features fc0)) = Ok f_indexes ->
  ((forall l t f,
      l ∈ l_indexes -> t ∈ t_indexes -> f ∈ f_indexes ->
      is_Some (source p l t f)) ->
   exists a,
     outcome (to_ndarray_vlf vt locs feats p) = Ok a
     /\ well_shaped a
     /\ shape a = (length t_indexes, length l_indexes, length f_indexes)
     /\ forall i j k l t f,
          t_indexes !! i = Some t -> l_indexes !! j = Some l ->
          f_indexes !! k = Some f ->
          cell a i j k = source p l t f)
  /\ (forall a,
        outcome (to_ndarray_vlf vt locs feats p) = Ok a ->
        shape a = (length t_indexes, length l_indexes, length f_indexes)
        /\ forall l t f,
             l ∈ l_indexes -> t ∈ t_indexes -> f ∈ f_indexes ->
             is_Some (source p l t f))
  /\ (forall e,
        outcome (to_ndarray_vlf vt locs feats p) = Raise e ->
        e = RuntimeError IndexError).
Proof.
  intros Hp Hfc Hl Ht Hf.
  rewrite (outcome_to_ndarray_vlf vt locs feats p lf0 fc0 _ _ _ Hp Hfc Hl Ht Hf).
  set (a0 := np_full _ nan).
  assert (Hfull : forall (Hall : forall l t f,
              l ∈ l_indexes -> t ∈ t_indexes -> f ∈ f_indexes ->
              is_Some (source p l t f)),
            exists a,
              populate_locations p l_indexes 0 t_indexes f_indexes a0 = Ok a
              /\ well_shaped a
              /\ shape a
                 = (length t_indexes, length l_indexes, length f_indexes)
              /\ forall i j k l t f,
                   t_indexes !! i = Some t -> l_indexes !! j = Some l ->
                   f_indexes !! k = Some f ->
                   cell a i j k = source p l t f).
  { intros Hall.
    destruct (populate_locations_Ok p (length t_indexes) (length l_indexes)
                (length f_indexes) l_indexes t_indexes f_indexes 0 a0)
      as (a & Hpop & Hw & Hs & Hc);
      [apply np_full_well_shaped | apply np_full_shape
      | simpl; lia .. | exact Hall |].
    exists a. repeat split; auto.
    intros i j k l t f Hi Hj Hk. rewrite Hc.
    pose proof (lookup_lt_Some _ _ _ Hi).
    pose proof (lookup_lt_Some _ _ _ Hj).
    pose proof (lookup_lt_Some _ _ _ Hk).
    rewrite decide_True by lia.
    rewrite Nat.sub_0_r, Hj. simpl. rewrite Hi. simpl. rewrite Hk.
    reflexivity. }
  split; [| split].
  - intros Hall. destruct (Hfull Hall) as (a & -> & Hrest). eauto.
  - intros a Ha.
    destruct (populate_locations p l_indexes 0 t_indexes f_indexes a0)
      as [a' |] eqn:Hpop; [| discriminate].
    injection Ha as <-.
    pose proof (populate_locations_present _ _ _ _ _ _ _ Hpop) as Hall.
    split; [| exact Hall].
    destruct (Hfull Hall) as (a & Ha & _ & Hs & _). congruence.
  - intros e He.
    destruct (populate_locations p l_indexes 0 t_indexes f_indexes a0)
      as [a' | e'] eqn:Hpop; [discriminate |].
    injection He as <-. f_equal. eapply populate_locations_Raise, Hpop.
Qed.


(** ** flatten *)

Lemma head_app {A} (l1 l2 : list A) :
  head (l1 ++ l2)
  = match head l1 with
    | Some x => Some x
    | None => head l2
    end.
Proof. by destruct l1. Qed.

Lemma find_app' {A} (f : A -> bool) (l1 l2 : list A) :
  List.find f (l1 ++ l2)
  = match List.find f l1 with
    | Some x => Some x
    | None => List.find f l2
    end.
Proof.
  induction l1 as [| x l1 IH]; simpl; [reflexivity |].
  destruct (f x); [reflexivity | exact IH].
Qed.

Lemma unknownb_true (code : Z) : unknownb code = true <-> ~ known code.
Proof.
  unfold unknownb. rewrite negb_true_iff, <- existsb_known.
  destruct (existsb _ members); split; congruence.
Qed.

Lemma unknownb_false (code : Z) : unknownb code = false <-> known code.
Proof.
  unfold unknownb. rewrite negb_false_iff. apply existsb_known.
Qed.

(** One round of the innermost loop: the error of the entry, or its row
    appended. *)
Lemma flatten_features_cons (lf : LocationForecast) (fc : Forecast_pb)
    (ff : FeatureForecast) (rest : list FeatureForecast) (data : list row) :
  flatten_features lf fc (ff :: rest) data
  = match entry_error lf fc ff with
    | Some e => Raise e
    | None => flatten_features lf fc rest (data ++ [entry_row lf fc ff])
    end.
Proof.
  cbn [flatten_features]. unfold entry_error, ToDatetime.
  destruct (in_range (creation_ts lf)); [| reflexivity].
  destruct (in_range (valid_at_ts fc)); [| reflexivity].
  cbn [rbind negb].
  destruct (known_dec (feature ff)) as [Hk | Hun].
  - destruct (ForecastFeature_call_known _ Hk) as (t & Hcall & _).
    rewrite Hcall, (proj2 (unknownb_false _) Hk). cbn [rbind].
    unfold entry_row, member_of. by rewrite Hcall.
  - rewrite (ForecastFeature_call_unknown _ Hun).
    by rewrite (proj2 (unknownb_true _) Hun).
Qed.

Lemma flatten_features_errors (lf : LocationForecast) (fc : Forecast_pb)
    (ffs : list FeatureForecast) :
  forall data,
    flatten_features lf fc ffs data
    = match head (ff ← ffs; option_list (entry_error lf fc ff)) with
      | Some e => Raise e
      | None => Ok (data ++ (entry_row lf fc <$> ffs))
      end.
Proof.
  induction ffs as [| ff rest IH]; intros data.
  - simpl. by rewrite app_nil_r.
  - rewrite flatten_features_cons, bind_cons, head_app, fmap_cons.
    destruct (entry_error lf fc ff) as [e |]; [reflexivity |].
    cbn [option_list head]. rewrite IH.
    destruct (head _); [reflexivity |]. by rewrite <- app_assoc.
Qed.

Lemma flatten_forecasts_errors (lf : LocationForecast)
    (fcs : list Forecast_pb) :
  forall data,
    flatten_forecasts lf fcs data
    = match head (fc ← fcs; ff ← features fc;
                  option_list (entry_error lf fc ff)) with
      | Some e => Raise e
      | None => Ok (data ++ (fc ← fcs; entry_row lf fc <$> features fc))
      end.
Proof.
  induction fcs as [| fc rest IH]; intros data.
  - simpl. by rewrite app_nil_r.
  - rewrite !bind_cons, head_app. cbn [flatten_forecasts].
    rewrite flatten_features_errors.
    destruct (head (ff ← features fc; option_list (entry_error lf fc ff)));
      [reflexivity |].
    cbn [rbind]. rewrite IH.
    destruct (head _); [reflexivity |]. by rewrite <- app_assoc.
Qed.

(** The loops stop at the first entry that has an error, and otherwise
    append the rows of all entries. *)
Lemma flatten_locations_errors (p : list LocationForecast) :
  forall data,
    flatten_locations p data
    = match head (errors p) with
      | Some e => Raise e
      | None => Ok (data ++ entries p)
      end.
Proof.
  unfold errors, entries.
  induction p as [| lf rest IH]; intros data.
  - simpl. by rewrite app_nil_r.
  - rewrite !bind_cons, head_app. cbn [flatten_locations].
    rewrite flatten_forecasts_errors.
    destruct (head (fc ← forecasts lf; ff ← features fc;
                    option_list (entry_error lf fc ff)));
      [reflexivity |].
    cbn [rbind]. rewrite IH.
    destruct (head _); [reflexivity |]. by rewrite <- app_assoc.
Qed.

(** The errors are those of the timestamps and of the enum. *)
Lemma errors_kinds (p : list LocationForecast) (e : exn) :
  e ∈ errors p ->
  e = OverflowError \/ exists code, ~ known code /\ e = ValueError_enum code.
Proof.
  unfold errors. intros Hin.
  apply list_elem_of_bind in Hin as (lf & Hin & _).
  apply list_elem_of_bind in Hin as (fc & Hin & _).
  apply list_elem_of_bind in Hin as (ff & Hin & _).
  unfold entry_error in Hin.
  destruct (in_range (creation_ts lf));
    [| apply list_elem_of_singleton in Hin; auto].
  destruct (in_range (valid_at_ts fc));
    [| apply list_elem_of_singleton in Hin; auto].
  cbn [negb] in Hin.
  destruct (unknownb (feature ff)) eqn:Hun.
  - apply list_elem_of_singleton in Hin. right. exists (feature ff).
    split; [by apply unknownb_true | exact Hin].
  - by apply elem_of_nil in Hin.
Qed.

(** With the timestamps in range the only errors are the unknown codes. *)
Lemma head_errors_in_range (p : list LocationForecast) :
  timestamps_in_range p ->
  head (errors p) = ValueError_enum <$> List.find unknownb (all_codes p).
Proof.
  unfold timestamps_in_range, errors, all_codes.
  induction 1 as [| lf rest [Hcreated Htimes] _ IH]; [reflexivity |].
  rewrite !bind_cons, head_app, find_app', IH. clear IH.
  assert (Hlf : head (fc ← forecasts lf; ff ← features fc;
                      option_list (entry_error lf fc ff))
                = ValueError_enum
                  <$> List.find unknownb
                        (fc ← forecasts lf; feature <$> features fc)).
  { induction Htimes as [| fc fcs Hvalid _ IHf]; [reflexivity |].
    rewrite !bind_cons, head_app, find_app', IHf. clear IHf.
    assert (Hfc : head (ff ← features fc; option_list (entry_error lf fc ff))
                  = ValueError_enum
                    <$> List.find unknownb (feature <$> features fc)).
    { induction (features fc) as [| ff ffs IHff]; [reflexivity |].
      rewrite bind_cons, head_app, fmap_cons, IHff.
      unfold entry_error. rewrite Hcreated, Hvalid. cbn [negb List.find].
      destruct (unknownb (feature ff)); reflexivity. }
    rewrite Hfc. destruct (List.find unknownb (feature <$> features fc));
      reflexivity. }
  rewrite Hlf.
  destruct (List.find unknownb (fc ← forecasts lf; feature <$> features fc));
    reflexivity.
Qed.

(** With the timestamps in range and every code known, [flatten] returns
    the entries of the payload. *)
Lemma flatten_known (p : list LocationForecast) :
  timestamps_in_range p ->
  (forall lf fc ff,
     lf ∈ p -> fc ∈ forecasts lf -> ff ∈ features fc -> known (feature ff)) ->
  flatten p = Ok (entries p).
Proof.
  intros Hrange Hall. unfold flatten.
  rewrite flatten_locations_errors, (head_errors_in_range p Hrange).
  destruct (List.find unknownb (all_codes p)) as [code |] eqn:Hfind;
    [| reflexivity].
  exfalso. apply find_some in Hfind as [Hin Hun].
  apply unknownb_true in Hun. apply Hun. unfold all_codes in Hin.
  apply list_elem_of_In in Hin.
  apply list_elem_of_bind in Hin as (lf & Hin & Hlf).
  apply list_elem_of_bind in Hin as (fc & Hin & Hfc).
  apply list_elem_of_fmap in Hin as (ff & -> & Hff). eauto.
Qed.

(** One row per feature entry: the number of rows is the number of
    entries the payload holds. *)
Lemma length_entries (p : list LocationForecast) :
  length (entries p)
  = sum_list ((fun lf =>
                 sum_list ((fun fc => length (features fc)) <$> forecasts lf))
              <$> p).
Proof.
  unfold entries. induction p as [| lf rest IH]; [reflexivity |].
  rewrite bind_cons, length_app, IH, fmap_cons. simpl. f_equal.
  induction (forecasts lf) as [| fc fcs IHf]; [reflexivity |].
  rewrite bind_cons, length_app, length_fmap, IHf. reflexivity.
Qed.


(** ** The statements *)

(** C9. [ForecastFeature.from_pb] is total: for every wire code it returns
    a member and raises nothing. A code that is the value of a member is
    mapped to the member with that value, silently (to that very member when
    no two members share a value). A code that is the value of no member is
    mapped to [UNSPECIFIED], with one warning logged that names the code. *)
Theorem ForecastFeature_from_pb_total (code : Z) :
  (exists out t, ForecastFeature_from_pb code = (out, Ok t))
  /\ (forall t,
        pb_value t = code ->
        exists t',
          ForecastFeature_from_pb code = ([], Ok t')
          /\ pb_value t' = code
          /\ ((forall a b, pb_value a = pb_value b -> a = b) -> t' = t))
  /\ ((forall t, pb_value t <> code) ->
      ForecastFeature_from_pb code
      = ([Log_unknown_feature code], Ok UNSPECIFIED)).
Proof.
  split; [| split].
  - destruct (known_dec code) as [Hk | Hun].
    + destruct (ForecastFeature_from_pb_known code Hk) as (t & Ht & _). eauto.
    + rewrite (ForecastFeature_from_pb_unknown code Hun). eauto.
  - intros t Ht.
    destruct (ForecastFeature_from_pb_known code) as (t' & Hfrom & Ht');
      [by exists t |].
    exists t'. repeat split; auto. intros Hinj. apply Hinj. congruence.
  - intros Hnone. apply ForecastFeature_from_pb_unknown.
    intros (t & Ht). by apply (Hnone t).
Qed.

Lemma elem_of_all_codes (p : list LocationForecast) (lf : LocationForecast)
    (fc : Forecast_pb) (ff : FeatureForecast) :
  lf ∈ p -> fc ∈ forecasts lf -> ff ∈ features fc ->
  feature ff ∈ all_codes p.
Proof.
  intros Hlf Hfc Hff. unfold all_codes.
  apply list_elem_of_bind. exists lf. split; [| exact Hlf].
  apply list_elem_of_bind. exists fc. split; [| exact Hfc].
  by apply list_elem_of_fmap_2.
Qed.

(** C10, as amended. A historical payload whose timestamps lie in the
    range of [datetime] and that holds a feature entry whose wire code is the
    value of no member makes [HistoricalForecasts.flatten] raise the
    [ValueError] of the enum constructor, for the first code of the payload,
    in the order of the iteration, that no member has; the error is not
    wrapped, and the code is not mapped to [UNSPECIFIED] as
    [ForecastFeature.from_pb] maps it. *)
Theorem flatten_unknown_code_raises (p : list LocationForecast)
    (lf : LocationForecast) (fc : Forecast_pb) (ff : FeatureForecast) :
  timestamps_in_range p ->
  lf ∈ p -> fc ∈ forecasts lf -> ff ∈ features fc ->
  ~ known (feature ff) ->
  exists code,
    List.find unknownb (all_codes p) = Some code
    /\ ~ known code
    /\ HistoricalForecasts_flatten p = Raise (ValueError_enum code)
    /\ is_ValueError (ValueError_enum code) = true
    /\ outcome (ForecastFeature_from_pb code) = Ok UNSPECIFIED.
Proof.
  intros Hrange Hlf Hfc Hff Hun. unfold HistoricalForecasts_flatten, flatten.
  destruct p as [| lf0 rest]; [by apply elem_of_nil in Hlf |].
  rewrite flatten_locations_errors, (head_errors_in_range _ Hrange).
  destruct (List.find unknownb (all_codes (lf0 :: rest))) as [code |] eqn:Hfind.
  - apply find_some in Hfind as [_ Hcode]. apply unknownb_true in Hcode.
    exists code. repeat split; auto.
    by rewrite (ForecastFeature_from_pb_unknown _ Hcode).
  - exfalso. apply Hun, unknownb_false.
    apply (find_none _ _ Hfind), list_elem_of_In.
    by apply (elem_of_all_codes _ lf fc ff).
Qed.

(** C4. A payload without location entries makes [to_ndarray_vlf], under
    any filters, and [HistoricalForecasts.flatten] raise the [ValueError] of
    the missing data, with nothing emitted before; a payload with a
    location entry makes neither of them raise that error. *)
Theorem empty_payload_ValueError :
  (forall vt locs feats,
     to_ndarray_vlf vt locs feats [] = ([], Raise ValueError_missing))
  /\ HistoricalForecasts_flatten [] = Raise ValueError_missing
  /\ (forall p,
        p <> [] ->
        (forall vt locs feats,
           outcome (to_ndarray_vlf vt locs feats p)
           <> Raise ValueError_missing)
        /\ HistoricalForecasts_flatten p <> Raise ValueError_missing).
Proof.
  split; [reflexivity | split; [reflexivity |]].
  intros [| lf0 rest] Hne; [congruence |]. split.
  - intros vt locs feats. unfold to_ndarray_vlf.
    rewrite outcome_try_except.
    destruct (outcome (to_ndarray_vlf_body vt locs feats (lf0 :: rest)));
      discriminate.
  - unfold HistoricalForecasts_flatten, flatten.
    rewrite flatten_locations_errors.
    destruct (head (errors (lf0 :: rest))) as [e |] eqn:Hhead; [| discriminate].
    apply head_Some_elem_of, errors_kinds in Hhead
      as [-> | (code & _ & ->)]; discriminate.
Qed.

(** C8. On a payload with a location entry, an exception raised inside
    the body of [to_ndarray_vlf] (the resolution of the indexes, the
    allocation, the population, the shape checks) leaves the call as a
    [RuntimeError] whose cause is that exception; a body that returns makes
    the call return the same array; and the call raises nothing else. *)
Theorem to_ndarray_vlf_wraps_failures vt locs feats
    (p : list LocationForecast) :
  p <> [] ->
  (forall e,
     outcome (to_ndarray_vlf_body vt locs feats p) = Raise e ->
     outcome (to_ndarray_vlf vt locs feats p) = Raise (RuntimeError e))
  /\ (forall a,
        outcome (to_ndarray_vlf_body vt locs feats p) = Ok a ->
        outcome (to_ndarray_vlf vt locs feats p) = Ok a)
  /\ (forall e',
        outcome (to_ndarray_vlf vt locs feats p) = Raise e' ->
        exists e,
          e' = RuntimeError e
          /\ outcome (to_ndarray_vlf_body vt locs feats p) = Raise e).
Proof.
  intros Hne. destruct p as [| lf0 rest]; [congruence |].
  unfold to_ndarray_vlf. rewrite outcome_try_except.
  destruct (outcome (to_ndarray_vlf_body vt locs feats (lf0 :: rest)))
    as [a | e]; repeat split; try congruence.
  intros e' [= <-]. eauto.
Qed.


(** A resolution of the validity times that raises: the call raises the
    [RuntimeError] caused by its exception. *)
Lemma to_ndarray_vlf_validity_raises vt locs feats
    (p : list LocationForecast) (lf0 : LocationForecast) (fc0 : Forecast_pb)
    (e : exn) :
  p !! 0%nat = Some lf0 -> forecasts lf0 !! 0%nat = Some fc0 ->
  outcome (validity_times_indexes vt (forecasts lf0)) = Raise e ->
  outcome (to_ndarray_vlf vt locs feats p) = Raise (RuntimeError e).
Proof.
  intros Hp Hfc Hraise. unfold to_ndarray_vlf.
  destruct p as [| lf p']; [discriminate |].
  rewrite outcome_try_except. unfold to_ndarray_vlf_body.
  rewrite (proj2 (getitem_Ok _ _ _) Hp), bind_lift_Ok.
  rewrite (proj2 (getitem_Ok _ _ _) Hfc), bind_lift_Ok.
  destruct (location_indexes_selects locs (lf :: p')) as (li & Hli & _).
  by rewrite outcome_bind, Hli, outcome_bind, Hraise.
Qed.

(** The array, or the exception, of a call depends on the filters through
    the three index lists only. *)
Lemma outcome_to_ndarray_vlf_indexes vt vt' locs locs' feats feats'
    (p : list LocationForecast) :
  location_indexes locs p = location_indexes locs' p ->
  (forall template,
     validity_times_indexes vt template
     = validity_times_indexes vt' template) ->
  (forall template,
     feature_indexes feats template = feature_indexes feats' template) ->
  outcome (to_ndarray_vlf vt locs feats p)
  = outcome (to_ndarray_vlf vt' locs' feats' p).
Proof.
  intros Hl Ht Hf. destruct p as [| lf0 rest]; [reflexivity |].
  destruct (forecasts lf0) as [| fc0 fcs] eqn:Hfcs.
  - by rewrite !to_ndarray_vlf_no_times.
  - assert (Hfc : forecasts lf0 !! 0%nat = Some fc0) by by rewrite Hfcs.
    destruct (location_indexes_selects locs (lf0 :: rest)) as (li & Hli & _).
    destruct (feature_indexes_selects feats (features fc0)) as (fi & Hfi & _).
    destruct (outcome (validity_times_indexes vt (forecasts lf0)))
      as [ti | e] eqn:Hti.
    + rewrite (outcome_to_ndarray_vlf vt locs feats (lf0 :: rest) lf0 fc0
                 li ti fi); auto.
      rewrite (outcome_to_ndarray_vlf vt' locs' feats' (lf0 :: rest) lf0 fc0
                 li ti fi); auto; congruence.
    + rewrite (to_ndarray_vlf_validity_raises vt locs feats (lf0 :: rest)
                 lf0 fc0 e); auto.
      rewrite (to_ndarray_vlf_validity_raises vt' locs' feats' (lf0 :: rest)
                 lf0 fc0 e); auto; congruence.
Qed.

(** On a payload that is complete, and with the timestamps of the first
    location in range when validity times are requested, the call returns
    the array of the three index lists. *)
Lemma to_ndarray_vlf_complete vt locs feats
    (p : list LocationForecast) (lf0 : LocationForecast) (fc0 : Forecast_pb) :
  p !! 0%nat = Some lf0 -> forecasts lf0 !! 0%nat = Some fc0 ->
  complete p lf0 fc0 ->
  (truthy vt = true ->
   Forall (fun fc => in_range (valid_at_ts fc) = true) (forecasts lf0)) ->
  exists a l_indexes t_indexes f_indexes,
    outcome (location_indexes locs p) = Ok l_indexes
    /\ outcome (validity_times_indexes vt (forecasts lf0)) = Ok t_indexes
    /\ outcome (feature_indexes feats (features fc0)) = Ok f_indexes
    /\ selects location_eq locs p l_indexes
    /\ selects validity_time_eq vt (forecasts lf0) t_indexes
    /\ selects feature_eq feats (features fc0) f_indexes
    /\ outcome (to_ndarray_vlf vt locs feats p) = Ok a
    /\ well_shaped a
    /\ shape a = (length t_indexes, length l_indexes, length f_indexes)
    /\ forall i j k l t f,
         t_indexes !! i = Some t -> l_indexes !! j = Some l ->
         f_indexes !! k = Some f ->
         cell a i j k = source p l t f.
Proof.
  intros Hp Hfc Hcomplete Hrange.
  destruct (location_indexes_selects locs p) as (li & Hli & Hsl).
  destruct (validity_times_indexes_selects vt (forecasts lf0) Hrange)
    as (ti & Hti & Hst).
  destruct (feature_indexes_selects feats (features fc0))
    as (fi & Hfi & Hsf).
  destruct (to_ndarray_vlf_selected vt locs feats p lf0 fc0 li ti fi
              Hp Hfc Hli Hti Hfi) as (Hret & _ & _).
  destruct Hret as (a & Ha & Hw & Hs & Hc).
  { intros l t f Hl Ht Hf. apply Hcomplete.
    - apply (selects_bound _ _ _ _ Hsl _ Hl).
    - apply (selects_bound _ _ _ _ Hst _ Ht).
    - apply (selects_bound _ _ _ _ Hsf _ Hf). }
  exists a, li, ti, fi. auto 12.
Qed.

(** C7. On a payload with a location entry, and whatever the two other
    filters are, [to_ndarray_vlf] with an empty list as the filter of a
    dimension returns the array (or raises the exception) it returns with
    that filter absent. The empty list selects the whole axis, in the order
    of the payload: on a payload that is complete (and with the timestamps
    of the first location in range when validity times are requested, and
    for requested locations whose coordinates are not NaN) the call with
    the empty list returns an array, the one of the call with
    the filter absent, whose axis of that dimension has the length of the
    axis of the payload and whose cell at a position of that axis holds the
    entry of the payload at that same position. *)
Theorem empty_filter_is_absent vt locs feats (p : list LocationForecast) :
  p <> [] ->
  (outcome (to_ndarray_vlf (Some []) locs feats p)
   = outcome (to_ndarray_vlf None locs feats p)
   /\ outcome (to_ndarray_vlf vt (Some []) feats p)
      = outcome (to_ndarray_vlf vt None feats p)
   /\ outcome (to_ndarray_vlf vt locs (Some []) p)
      = outcome (to_ndarray_vlf vt locs None p))
  /\ forall lf0 fc0,
       p !! 0%nat = Some lf0 -> forecasts lf0 !! 0%nat = Some fc0 ->
       complete p lf0 fc0 -> Forall nan_free (default [] locs) ->
       (exists a l_indexes f_indexes,
          outcome (to_ndarray_vlf (Some []) locs feats p) = Ok a
          /\ outcome (to_ndarray_vlf None locs feats p) = Ok a
          /\ outcome (location_indexes locs p) = Ok l_indexes
          /\ outcome (feature_indexes feats (features fc0)) = Ok f_indexes
          /\ shape a
             = (length (forecasts lf0), length l_indexes, length f_indexes)
          /\ forall t j k l f,
               (t < length (forecasts lf0))%nat ->
               l_indexes !! j = Some l -> f_indexes !! k = Some f ->
               cell a t j k = source p l t f)
       /\ ((truthy vt = true ->
            Forall (fun fc => in_range (valid_at_ts fc) = true)
              (forecasts lf0)) ->
           (exists a t_indexes f_indexes,
              outcome (to_ndarray_vlf vt (Some []) feats p) = Ok a
              /\ outcome (to_ndarray_vlf vt None feats p) = Ok a
              /\ outcome (validity_times_indexes vt (forecasts lf0))
                 = Ok t_indexes
              /\ outcome (feature_indexes feats (features fc0))
                 = Ok f_indexes
              /\ shape a = (length t_indexes, length p, length f_indexes)
              /\ forall i l k t f,
                   t_indexes !! i = Some t -> (l < length p)%nat ->
                   f_indexes !! k = Some f ->
                   cell a i l k = source p l t f)
           /\ (exists a l_indexes t_indexes,
                 outcome (to_ndarray_vlf vt locs (Some []) p) = Ok a
                 /\ outcome (to_ndarray_vlf vt locs None p) = Ok a
                 /\ outcome (location_indexes locs p) = Ok l_indexes
                 /\ outcome (validity_times_indexes vt (forecasts lf0))
                    = Ok t_indexes
                 /\ shape a
                    = (length t_indexes, length l_indexes,
                       length (features fc0))
                 /\ forall i j f l t,
                      t_indexes !! i = Some t -> l_indexes !! j = Some l ->
                      (f < length (features fc0))%nat ->
                      cell a i j f = source p l t f)).
Proof.
  intros _.
  assert (Heq : outcome (to_ndarray_vlf (Some []) locs feats p)
                = outcome (to_ndarray_vlf None locs feats p)
                /\ outcome (to_ndarray_vlf vt (Some []) feats p)
                   = outcome (to_ndarray_vlf vt None feats p)
                /\ outcome (to_ndarray_vlf vt locs (Some []) p)
                   = outcome (to_ndarray_vlf vt locs None p)).
  { repeat split; apply outcome_to_ndarray_vlf_indexes; reflexivity. }
  split; [exact Heq |]. destruct Heq as (Heq1 & Heq2 & Heq3).
  intros lf0 fc0 Hp Hfc Hcomplete _. split; [| intros Hrange; split].
  - destruct (to_ndarray_vlf_complete (Some []) locs feats p lf0 fc0
                Hp Hfc Hcomplete)
      as (a & li & ti & fi & Hli & Hti & Hfi & _ & _ & _ & Ha & _ & Hs & Hc);
      [discriminate |].
    injection Hti as <-. rewrite length_seq in Hs.
    exists a, li, fi. repeat split; auto; [congruence |].
    intros t j k l f Ht Hj Hk. apply Hc; auto. by apply lookup_seq_lt.
  - destruct (to_ndarray_vlf_complete vt (Some []) feats p lf0 fc0
                Hp Hfc Hcomplete Hrange)
      as (a & li & ti & fi & Hli & Hti & Hfi & _ & _ & _ & Ha & _ & Hs & Hc).
    injection Hli as <-. rewrite length_seq in Hs.
    exists a, ti, fi. repeat split; auto; [congruence |].
    intros i l k t f Hi Hl Hk. apply Hc; auto. by apply lookup_seq_lt.
  - destruct (to_ndarray_vlf_complete vt locs (Some []) p lf0 fc0
                Hp Hfc Hcomplete Hrange)
      as (a & li & ti & fi & Hli & Hti & Hfi & _ & _ & _ & Ha & _ & Hs & Hc).
    injection Hfi as <-. rewrite length_seq in Hs.
    exists a, li, ti. repeat split; auto; [congruence |].
    intros i j f l t Hi Hj Hf. apply Hc; auto. by apply lookup_seq_lt.
Qed.

Lemma uniform_present (p : list LocationForecast)
    (lf0 : LocationForecast) (fc0 : Forecast_pb) :
  uniform p -> p !! 0%nat = Some lf0 -> forecasts lf0 !! 0%nat = Some fc0 ->
  forall l t f,
    (l < length p)%nat -> (t < length (forecasts lf0))%nat ->
    (f < length (features fc0))%nat ->
    is_Some (source p l t f).
Proof.
  intros (times & codes & Hall) Hp Hfc l t f Hl Ht Hf.
  rewrite Forall_forall in Hall.
  destruct (Hall lf0 (list_elem_of_lookup_2 _ _ _ Hp)) as [Htimes0 Hcodes0].
  rewrite Forall_forall in Hcodes0.
  pose proof (Hcodes0 fc0 (list_elem_of_lookup_2 _ _ _ Hfc)) as Hc0.
  destruct (lookup_lt_is_Some_2 p l Hl) as [lf Hlf].
  destruct (Hall lf (list_elem_of_lookup_2 _ _ _ Hlf)) as [Htimes Hcodes].
  assert (Hlen : length (forecasts lf) = length (forecasts lf0)).
  { rewrite <- (length_map (fun fc => ToDatetime (valid_at_ts fc))
                  (forecasts lf)), Htimes, <- Htimes0.
    apply length_map. }
  destruct (lookup_lt_is_Some_2 (forecasts lf) t) as [fc Hfct]; [lia |].
  rewrite Forall_forall in Hcodes.
  pose proof (Hcodes fc (list_elem_of_lookup_2 _ _ _ Hfct)) as Hc.
  assert (Hlen' : length (features fc) = length (features fc0)).
  { rewrite <- (length_map feature (features fc)), Hc, <- Hc0.
    apply length_map. }
  destruct (lookup_lt_is_Some_2 (features fc) f) as [ff Hff]; [lia |].
  exists (value ff). apply source_Some. eauto 10.
Qed.

(** C1, as amended. For every uniform payload with a location entry whose
    first location has a validity time entry, [to_ndarray_vlf] without
    filters returns an array of shape (T, L, F): T the number of validity
    time entries of the first location, L the number of locations, F the
    number of feature entries of the first validity time entry of the first
    location. Every cell (t, l, f) inside that shape holds the value at
    [payload[l].forecasts[t].features[f]]. *)
Theorem to_ndarray_vlf_uniform (p : list LocationForecast)
    (lf0 : LocationForecast) (fc0 : Forecast_pb) :
  p !! 0%nat = Some lf0 -> forecasts lf0 !! 0%nat = Some fc0 ->
  uniform p ->
  exists a,
    outcome (to_ndarray_vlf None None None p) = Ok a
    /\ well_shaped a
    /\ shape a
       = (length (forecasts lf0), length p, length (features fc0))
    /\ forall t l f,
         (t < length (forecasts lf0))%nat -> (l < length p)%nat ->
         (f < length (features fc0))%nat ->
         exists lf fc ff,
           p !! l = Some lf /\ forecasts lf !! t = Some fc
           /\ features fc !! f = Some ff
           /\ cell a t l f = Some (value ff).
Proof.
  intros Hp Hfc Hun.
  destruct (to_ndarray_vlf_selected None None None p lf0 fc0
              (seq 0 (length p)) (seq 0 (length (forecasts lf0)))
              (seq 0 (length (features fc0))) Hp Hfc)
    as (Hret & _ & _); [reflexivity .. |].
  destruct Hret as (a & Ha & Hw & Hs & Hc).
  { intros l t f Hl Ht Hf.
    apply elem_of_seq in Hl, Ht, Hf.
    apply (uniform_present p lf0 fc0 Hun Hp Hfc); lia. }
  exists a. rewrite !length_seq in Hs. repeat split; auto.
  intros t l f Ht Hl Hf.
  destruct (uniform_present p lf0 fc0 Hun Hp Hfc l t f Hl Ht Hf) as [v Hv].
  pose proof Hv as Hv'. apply source_Some in Hv' as (lf & fc & ff & ? & ? & ? & <-).
  exists lf, fc, ff. repeat split; auto.
  rewrite <- Hv. apply Hc; by apply lookup_seq_lt.
Qed.

(** A selected entry that the payload does not hold: the call raises the
    [RuntimeError] caused by the [IndexError] of the missing entry, and
    returns no array. *)
Lemma to_ndarray_vlf_missing_entry_raises vt locs feats
    (p : list LocationForecast) (lf0 : LocationForecast) (fc0 : Forecast_pb)
    (l_indexes t_indexes f_indexes : list nat) (l t f : nat) :
  p !! 0%nat = Some lf0 -> forecasts lf0 !! 0%nat = Some fc0 ->
  outcome (location_indexes locs p) = Ok l_indexes ->
  outcome (validity_times_indexes vt (forecasts lf0)) = Ok t_indexes ->
  outcome (feature_indexes feats (features fc0)) = Ok f_indexes ->
  l ∈ l_indexes -> t ∈ t_indexes -> f ∈ f_indexes ->
  source p l t f = None ->
  outcome (to_ndarray_vlf vt locs feats p) = Raise (RuntimeError IndexError).
Proof.
  intros Hp Hfc Hl Ht Hf Hinl Hint Hinf Hnone.
  destruct (to_ndarray_vlf_selected vt locs feats p lf0 fc0
              l_indexes t_indexes f_indexes Hp Hfc Hl Ht Hf)
    as (_ & Hok & Hraise).
  destruct (outcome (to_ndarray_vlf vt locs feats p)) as [a | e] eqn:Hout.
  - destruct (Hok a eq_refl) as [_ Hall].
    destruct (Hall l t f Hinl Hint Hinf) as [v Hv]. congruence.
  - f_equal. by apply Hraise.
Qed.


Lemma selects_nonempty {R A} (pm : R -> A -> bool) (requested : list R)
    (template : list A) (indexes : list nat) :
  requested <> [] ->
  selects pm (Some requested) template indexes ->
  resolved pm template requested indexes.
Proof.
  intros Hne. unfold selects.
  destruct requested as [| r rs]; [congruence |]. simpl. auto.
Qed.

(** An array that is returned: the payload has a first entry, the shape is
    the lengths of the three index lists, and each cell is the entry of the
    payload at the indexes its position selects. *)
Lemma to_ndarray_vlf_returned vt locs feats
    (p : list LocationForecast) (lf0 : LocationForecast) (a : ndarray) :
  p !! 0%nat = Some lf0 ->
  outcome (to_ndarray_vlf vt locs feats p) = Ok a ->
  exists fc0 l_indexes t_indexes f_indexes,
    forecasts lf0 !! 0%nat = Some fc0
    /\ outcome (location_indexes locs p) = Ok l_indexes
    /\ outcome (validity_times_indexes vt (forecasts lf0)) = Ok t_indexes
    /\ outcome (feature_indexes feats (features fc0)) = Ok f_indexes
    /\ shape a = (length t_indexes, length l_indexes, length f_indexes)
    /\ forall i j k l t f,
         t_indexes !! i = Some t -> l_indexes !! j = Some l ->
         f_indexes !! k = Some f ->
         is_Some (source p l t f) /\ cell a i j k = source p l t f.
Proof.
  intros Hp Ha.
  destruct p as [| lf rest]; [discriminate |]. injection Hp as ->.
  destruct (forecasts lf0) as [| fc0 fcs] eqn:Hfcs.
  { rewrite to_ndarray_vlf_no_times in Ha by exact Hfcs. discriminate. }
  assert (Hfc : forecasts lf0 !! 0%nat = Some fc0) by by rewrite Hfcs.
  rewrite <- Hfcs.
  destruct (location_indexes_selects locs (lf0 :: rest)) as (li & Hli & _).
  destruct (outcome (validity_times_indexes vt (forecasts lf0)))
    as [ti | e] eqn:Hti.
  2: { rewrite (to_ndarray_vlf_validity_raises vt locs feats (lf0 :: rest)
                  lf0 fc0 e eq_refl Hfc Hti) in Ha. discriminate. }
  destruct (feature_indexes_selects feats (features fc0)) as (fi & Hfi & _).
  destruct (to_ndarray_vlf_selected vt locs feats (lf0 :: rest) lf0 fc0
              li ti fi eq_refl Hfc Hli Hti Hfi) as (Hret & Hok & _).
  destruct (Hok a Ha) as [Hs Hall].
  destruct (Hret Hall) as (a' & Ha' & _ & _ & Hc).
  assert (a' = a) as -> by congruence.
  exists fc0, li, ti, fi. repeat split; auto.
  apply Hall; eapply list_elem_of_lookup_2; eauto.
Qed.



(** ** What is emitted *)

Lemma Forall_emitted_bind {A B} (P : diagnostic -> Prop)
    (m : M A) (k : A -> M B) :
  Forall P (emitted m) ->
  (forall a, outcome m = Ok a -> Forall P (emitted (k a))) ->
  Forall P (emitted (bind m k)).
Proof.
  intros Hm Hk. rewrite emitted_bind.
  destruct (outcome m) as [a | e] eqn:Hout; [| exact Hm].
  apply Forall_app. split; [exact Hm | by apply Hk].
Qed.

Lemma Forall_emitted_scan {A} (P : diagnostic -> Prop)
    (matches : A -> M bool) (template : list A) :
  (forall x, Forall P (emitted (matches x))) ->
  forall start, Forall P (emitted (scan matches template start)).
Proof.
  intros Hm. induction template as [| x rest IH]; intros start; simpl.
  - constructor.
  - apply Forall_emitted_bind; [apply Hm |].
    intros [|] _; [constructor | apply IH].
Qed.

Lemma Forall_emitted_resolve {R A} (P : diagnostic -> Prop)
    (matches : R -> A -> M bool) (requested : list R) (template : list A) :
  (forall r x, Forall P (emitted (matches r x))) ->
  forall acc, Forall P (emitted (resolve matches requested template acc)).
Proof.
  intros Hm. induction requested as [| r rest IH]; intros acc; simpl.
  - constructor.
  - apply Forall_emitted_bind; [by apply Forall_emitted_scan |].
    intros o _. apply IH.
Qed.

Lemma emitted_from_pb (code : Z) :
  Forall (fun d => locations_or_features_warning d = false)
    (emitted (ForecastFeature_from_pb code)).
Proof.
  destruct (known_dec code) as [Hk | Hun].
  - destruct (ForecastFeature_from_pb_known code Hk) as (t & -> & _).
    constructor.
  - rewrite (ForecastFeature_from_pb_unknown code Hun).
    by repeat constructor.
Qed.

(** After the population the lengths of the axes are the lengths of the
    index lists, so only the check of the validity times can print. *)
Lemma emitted_shape_warnings vt locs feats
    (t_indexes l_indexes f_indexes : list nat) (a : ndarray) :
  shape a = (length t_indexes, length l_indexes, length f_indexes) ->
  emitted (shape_warnings vt locs feats t_indexes l_indexes f_indexes a)
  = if bool_decide (is_Some vt)
       && negb (length t_indexes =? filter_len vt)%nat
    then [Print_validity_times (length t_indexes) t_indexes]
    else [].
Proof.
  intros Hs. unfold shape_warnings. rewrite Hs, !Nat.eqb_refl.
  rewrite !andb_false_r.
  destruct (bool_decide (is_Some vt) && _); reflexivity.
Qed.

Lemma populate_locations_shape (p : list LocationForecast)
    (l_indexes t_indexes f_indexes : list nat) (a : ndarray) :
  populate_locations p l_indexes 0 t_indexes f_indexes
    (np_full (length t_indexes, length l_indexes, length f_indexes) nan)
  = Ok a ->
  shape a = (length t_indexes, length l_indexes, length f_indexes).
Proof.
  intros Hpop.
  pose proof (populate_locations_present _ _ _ _ _ _ _ Hpop) as Hall.
  destruct (populate_locations_Ok p (length t_indexes) (length l_indexes)
              (length f_indexes) l_indexes t_indexes f_indexes 0
              (np_full (length t_indexes, length l_indexes,
                        length f_indexes) nan))
    as (a' & Hpop' & _ & Hs & _);
    [apply np_full_well_shaped | apply np_full_shape
    | simpl; lia .. | exact Hall |].
  congruence.
Qed.

(** X18. Whatever the filters and the payload, [to_ndarray_vlf] prints neither
    the warning about the locations nor the warning about the features. *)
Lemma to_ndarray_vlf_never_warns_locations_features vt locs feats
    (p : list LocationForecast) :
  Forall (fun d => locations_or_features_warning d = false)
    (emitted (to_ndarray_vlf vt locs feats p)).
Proof.
  unfold to_ndarray_vlf. destruct p as [| lf rest]; [constructor |].
  rewrite emitted_try_except. unfold to_ndarray_vlf_body.
  apply Forall_emitted_bind; [constructor |]. intros lf0 _.
  apply Forall_emitted_bind; [constructor |]. intros fc0 _.
  apply Forall_emitted_bind.
  { unfold location_indexes. destruct (truthy locs); [| constructor].
    apply Forall_emitted_resolve. intros r x. constructor. }
  intros li _. apply Forall_emitted_bind.
  { unfold validity_times_indexes. destruct (truthy vt); [| constructor].
    apply Forall_emitted_resolve. intros r x. unfold validity_time_matches.
    apply Forall_emitted_bind; [constructor | intros t _; constructor]. }
  intros ti _. apply Forall_emitted_bind.
  { unfold feature_indexes. destruct (truthy feats); [| constructor].
    apply Forall_emitted_resolve. intros r x. unfold feature_matches.
    apply Forall_emitted_bind; [apply emitted_from_pb |].
    intros t _. constructor. }
  intros fi _. apply Forall_emitted_bind; [constructor |].
  intros a Ha. rewrite outcome_lift in Ha.
  apply populate_locations_shape in Ha.
  apply Forall_emitted_bind; [| intros _ _; constructor].
  rewrite (emitted_shape_warnings _ _ _ _ _ _ _ Ha).
  destruct (_ && _); by repeat constructor.
Qed.


(** ** Further properties: the enum *)

(** X1. [ForecastFeature.from_pb] and the constructor [ForecastFeature(code)]
    agree wherever the constructor returns, and [from_pb] logs its warning
    and falls back to [UNSPECIFIED] exactly where the constructor raises. *)
Theorem from_pb_agrees_with_constructor (code : Z) :
  (forall t,
     ForecastFeature_call code = Ok t ->
     ForecastFeature_from_pb code = ([], Ok t))
  /\ (forall e,
        ForecastFeature_call code = Raise e ->
        e = ValueError_enum code
        /\ ForecastFeature_from_pb code
           = ([Log_unknown_feature code], Ok UNSPECIFIED))
  /\ (emitted (ForecastFeature_from_pb code) <> []
      <-> exists e, ForecastFeature_call code = Raise e).
Proof.
  destruct (known_dec code) as [Hk | Hun].
  - destruct (ForecastFeature_from_pb_known code Hk) as (t & Hfrom & _).
    destruct (ForecastFeature_call_known code Hk) as (t' & Hcall & _).
    assert (t' = t) as ->.
    { unfold ForecastFeature_from_pb in Hfrom.
      rewrite (proj2 (existsb_known code) Hk), Hcall in Hfrom.
      simpl in Hfrom. unfold lift in Hfrom. congruence. }
    rewrite Hcall, Hfrom. repeat split.
    + congruence.
    + discriminate.
    + discriminate.
    + intros H. by destruct H.
    + intros [e He]. discriminate.
  - rewrite (ForecastFeature_call_unknown code Hun).
    rewrite (ForecastFeature_from_pb_unknown code Hun). repeat split.
    + discriminate.
    + congruence.
    + eauto.
    + discriminate.
Qed.

(** ** Further properties: flatten *)

(** X2. [HistoricalForecasts.flatten] in full. Without location entries it
    raises the [ValueError] of the missing data. Otherwise it stops at the
    first feature entry, in the order locations, validity times, features,
    whose row cannot be built, and raises the error of that entry without
    returning the rows before it: [OverflowError] when the creation time of
    its location, or else its validity time, is out of the range of
    [datetime], and else the [ValueError] of the constructor for its code
    when no member has it. With no such entry it returns one row per
    feature entry, in that order. With the timestamps of the payload in
    range, the first error is that of the first code that no member has. *)
Theorem HistoricalForecasts_flatten_first_error
    (p : list LocationForecast) :
  HistoricalForecasts_flatten p
  = match p with
    | [] => Raise ValueError_missing
    | _ :: _ =>
        match head (errors p) with
        | Some e => Raise e
        | None => Ok (entries p)
        end
    end
  /\ (timestamps_in_range p ->
      head (errors p) = ValueError_enum <$> List.find unknownb (all_codes p)).
Proof.
  split; [| apply head_errors_in_range].
  destruct p as [| lf rest]; [reflexivity |].
  unfold HistoricalForecasts_flatten, flatten.
  by rewrite flatten_locations_errors.
Qed.

(** X3. The module level [flatten] takes the locations one after the other:
    the empty list gives no rows and no error, and the rows of two lists
    put together are the rows of the first followed by the rows of the
    second, an error of the first list coming before one of the second. *)
Theorem flatten_app (p1 p2 : list LocationForecast) :
  flatten [] = Ok []
  /\ flatten (p1 ++ p2)
     = match flatten p1 with
       | Ok rows1 =>
           match flatten p2 with
           | Ok rows2 => Ok (rows1 ++ rows2)
           | Raise e => Raise e
           end
       | Raise e => Raise e
       end.
Proof.
  split; [reflexivity |]. unfold flatten.
  rewrite !flatten_locations_errors. unfold errors, entries.
  rewrite !bind_app, head_app.
  destruct (head (p1 ≫= _)); [reflexivity |].
  destruct (head (p2 ≫= _)); reflexivity.
Qed.

(** X4. The number of rows of a payload that is flattened: the number of
    feature entries it holds. A location without validity times, and a
    validity time without features, contribute no row. *)
Theorem flatten_length (p : list LocationForecast) (rows : list row) :
  flatten p = Ok rows ->
  length rows
  = sum_list ((fun lf =>
                 sum_list ((fun fc => length (features fc)) <$> forecasts lf))
              <$> p).
Proof.
  unfold flatten. rewrite flatten_locations_errors.
  destruct (head (errors p)); [discriminate |].
  intros [= <-]. apply length_entries.
Qed.


(** ** Further properties: to_ndarray_vlf *)

Lemma to_ndarray_vlf_Ok_first vt locs feats (p : list LocationForecast)
    (a : ndarray) :
  outcome (to_ndarray_vlf vt locs feats p) = Ok a ->
  exists lf0, p !! 0%nat = Some lf0.
Proof.
  destruct p as [| lf0 rest]; [discriminate |]. intros _. by exists lf0.
Qed.

(** The array returned agrees with its shape. *)
Lemma to_ndarray_vlf_returned_well_shaped vt locs feats
    (p : list LocationForecast) (a : ndarray) :
  outcome (to_ndarray_vlf vt locs feats p) = Ok a -> well_shaped a.
Proof.
  intros Ha. destruct (to_ndarray_vlf_Ok_first _ _ _ _ _ Ha) as [lf0 Hp].
  destruct (to_ndarray_vlf_returned _ _ _ _ _ _ Hp Ha)
    as (fc0 & li & ti & fi & Hfc & Hli & Hti & Hfi & _ & _).
  destruct (to_ndarray_vlf_selected vt locs feats p lf0 fc0 li ti fi
              Hp Hfc Hli Hti Hfi) as (Hret & Hok & _).
  destruct (Hok a Ha) as [_ Hall].
  destruct (Hret Hall) as (a' & Ha' & Hw & _). congruence.
Qed.

(** X5. When [to_ndarray_vlf] raises, and what. On a payload with a location
    entry the call raises nothing but the [RuntimeError] caused by an
    [IndexError] or by an [OverflowError]. The cause is [OverflowError]
    exactly when the first location has a validity time entry, validity
    times are requested, and the scan for one of them reaches a timestamp
    out of the range of [datetime] before an entry that equals it. The
    cause is [IndexError] exactly when the first location has no validity
    time entry, or the three index lists are resolved and the payload lacks
    the entry at some selected combination of location, validity time and
    feature indexes. *)
Theorem to_ndarray_vlf_raises_iff vt locs feats
    (p : list LocationForecast) (lf0 : LocationForecast) :
  p !! 0%nat = Some lf0 ->
  (forall e,
     outcome (to_ndarray_vlf vt locs feats p) = Raise e ->
     e = RuntimeError IndexError \/ e = RuntimeError OverflowError)
  /\ (outcome (to_ndarray_vlf vt locs feats p)
      = Raise (RuntimeError OverflowError)
      <-> forecasts lf0 <> [] /\ truthy vt = true
          /\ exists r, r ∈ default [] vt /\ overflows r (forecasts lf0))
  /\ (outcome (to_ndarray_vlf vt locs feats p)
      = Raise (RuntimeError IndexError)
      <-> forecasts lf0 = []
          \/ exists fc0 l_indexes t_indexes f_indexes l t f,
               forecasts lf0 !! 0%nat = Some fc0
               /\ outcome (location_indexes locs p) = Ok l_indexes
               /\ outcome (validity_times_indexes vt (forecasts lf0))
                  = Ok t_indexes
               /\ outcome (feature_indexes feats (features fc0))
                  = Ok f_indexes
               /\ l ∈ l_indexes /\ t ∈ t_indexes /\ f ∈ f_indexes
               /\ source p l t f = None).
Proof.
  intros Hp.
  assert (Hp' : exists rest, p = lf0 :: rest).
  { destruct p as [| lf rest]; [discriminate |].
    injection Hp as ->. by exists rest. }
  destruct Hp' as [rest ->].
  destruct (forecasts lf0) as [| fc0 fcs] eqn:Hfcs.
  { rewrite to_ndarray_vlf_no_times by exact Hfcs. split; [| split].
    - intros e [= <-]. by left.
    - split; [discriminate | intros [Hne _]; congruence].
    - split; [by left | reflexivity]. }
  assert (Hfc : forecasts lf0 !! 0%nat = Some fc0) by by rewrite Hfcs.
  assert (Hne : forecasts lf0 <> []) by (rewrite Hfcs; discriminate).
  rewrite <- Hfcs in *.
  destruct (location_indexes_selects locs (lf0 :: rest)) as (li & Hli & _).
  destruct (feature_indexes_selects feats (features fc0)) as (fi & Hfi & _).
  destruct (validity_times_indexes_cases vt (forecasts lf0))
    as [(ti & Hti & _ & Hno) | (Htr & Hti & r & Hr & Hover)].
  - destruct (to_ndarray_vlf_selected vt locs feats (lf0 :: rest) lf0 fc0
                li ti fi Hp Hfc Hli Hti Hfi) as (Hret & Hok & Hraise).
    split; [| split].
    + intros e He. left. by apply Hraise.
    + split.
      * intros He. apply Hraise in He. discriminate.
      * intros (_ & Htr & r & Hr & Hover). exfalso. by apply (Hno Htr r Hr).
    + split.
      * intros He. right.
        destruct (decide (Forall (fun l => Forall (fun t =>
                    Forall (fun f => is_Some (source (lf0 :: rest) l t f)) fi)
                    ti) li)) as [Hall | Hnot].
        -- destruct Hret as (a & Ha & _); [| congruence].
           intros l t f Hl Ht Hf.
           rewrite Forall_forall in Hall. specialize (Hall l Hl).
           rewrite Forall_forall in Hall. specialize (Hall t Ht).
           rewrite Forall_forall in Hall. exact (Hall f Hf).
        -- apply not_Forall_Exists in Hnot; [| apply _].
           apply Exists_exists in Hnot as (l & Hl & Hnot). simpl in Hnot.
           apply not_Forall_Exists in Hnot; [| apply _].
           apply Exists_exists in Hnot as (t & Ht & Hnot). simpl in Hnot.
           apply not_Forall_Exists in Hnot; [| apply _].
           apply Exists_exists in Hnot as (f & Hf & Hnot). simpl in Hnot.
           exists fc0, li, ti, fi, l, t, f. repeat split; auto.
           by apply eq_None_not_Some.
      * intros [Hnil | (fc0' & li' & ti' & fi' & l & t & f & Hfc' & Hli'
                        & Hti' & Hfi' & Hl & Ht & Hf & Hnone)];
          [congruence |].
        eapply to_ndarray_vlf_missing_entry_raises; eauto.
  - rewrite (to_ndarray_vlf_validity_raises vt locs feats (lf0 :: rest)
               lf0 fc0 OverflowError Hp Hfc Hti).
    split; [| split].
    + intros e [= <-]. by right.
    + split; [| reflexivity]. intros _. eauto.
    + split; [discriminate |].
      intros [Hnil | (fc0' & li' & ti' & fi' & l & t & f & _ & _
                      & Hti' & _)]; congruence.
Qed.

(** X6. No cell of a returned array is left as allocated. The array returned
    agrees with its shape, and each of its cells holds the value of a
    feature entry of the payload. *)
Theorem to_ndarray_vlf_cells_from_payload vt locs feats
    (p : list LocationForecast) (a : ndarray) (n0 n1 n2 i j k : nat) :
  outcome (to_ndarray_vlf vt locs feats p) = Ok a ->
  shape a = (n0, n1, n2) ->
  (i < n0)%nat -> (j < n1)%nat -> (k < n2)%nat ->
  well_shaped a
  /\ exists l t f lf fc ff,
       p !! l = Some lf /\ forecasts lf !! t = Some fc
       /\ features fc !! f = Some ff
       /\ cell a i j k = Some (value ff).
Proof.
  intros Ha Hs Hi Hj Hk.
  split; [eapply to_ndarray_vlf_returned_well_shaped, Ha |].
  destruct (to_ndarray_vlf_Ok_first _ _ _ _ _ Ha) as [lf0 Hp].
  destruct (to_ndarray_vlf_returned _ _ _ _ _ _ Hp Ha)
    as (fc0 & li & ti & fi & _ & _ & _ & _ & Hs' & Hc).
  rewrite Hs in Hs'. injection Hs' as -> -> ->.
  destruct (lookup_lt_is_Some_2 ti i Hi) as [t Ht].
  destruct (lookup_lt_is_Some_2 li j Hj) as [l Hl].
  destruct (lookup_lt_is_Some_2 fi k Hk) as [f Hf].
  destruct (Hc i j k l t f Ht Hl Hf) as [[v Hv] Hcell].
  pose proof Hv as Hv'.
  apply source_Some in Hv' as (lf & fc & ff & Hlf & Hfct & Hff & <-).
  exists l, t, f, lf, fc, ff. repeat split; auto. congruence.
Qed.

(** X7. Without filters the first location is the template, also on a payload
    that is not uniform. The call returns exactly when every location has
    an entry at each validity time and feature position of the template
    (entries of the other locations beyond those positions are not looked
    at); the array then has the shape of the template and the location
    count, and its cell (t, l, f) is the entry at [l], [t], [f]. *)
Theorem to_ndarray_vlf_unfiltered_iff (p : list LocationForecast)
    (lf0 : LocationForecast) (fc0 : Forecast_pb) :
  p !! 0%nat = Some lf0 -> forecasts lf0 !! 0%nat = Some fc0 ->
  ((exists a, outcome (to_ndarray_vlf None None None p) = Ok a)
   <-> forall l t f,
         (l < length p)%nat -> (t < length (forecasts lf0))%nat ->
         (f < length (features fc0))%nat ->
         is_Some (source p l t f))
  /\ (forall a,
        outcome (to_ndarray_vlf None None None p) = Ok a ->
        shape a = (length (forecasts lf0), length p, length (features fc0))
        /\ forall t l f,
             (t < length (forecasts lf0))%nat -> (l < length p)%nat ->
             (f < length (features fc0))%nat ->
             cell a t l f = source p l t f).
Proof.
  intros Hp Hfc.
  destruct (to_ndarray_vlf_selected None None None p lf0 fc0
              (seq 0 (length p)) (seq 0 (length (forecasts lf0)))
              (seq 0 (length (features fc0))) Hp Hfc)
    as (Hret & Hok & _); [reflexivity .. |].
  rewrite !length_seq in *.
  assert (Hcells : forall a,
            outcome (to_ndarray_vlf None None None p) = Ok a ->
            forall t l f,
              (t < length (forecasts lf0))%nat -> (l < length p)%nat ->
              (f < length (features fc0))%nat ->
              cell a t l f = source p l t f).
  { intros a Ha t l f Ht Hl Hf. destruct (Hok a Ha) as [_ Hall].
    destruct (Hret Hall) as (a' & Ha' & _ & _ & Hc).
    assert (a' = a) as -> by congruence.
    apply Hc; by apply lookup_seq_lt. }
  split; [split |].
  - intros [a Ha] l t f Hl Ht Hf. destruct (Hok a Ha) as [_ Hall].
    apply Hall; apply elem_of_seq; lia.
  - intros Hall. destruct Hret as (a & Ha & _); [| eauto].
    intros l t f Hl Ht Hf. apply elem_of_seq in Hl, Ht, Hf.
    apply Hall; lia.
  - intros a Ha. split; [apply (Hok a Ha) | by apply Hcells].
Qed.

(** X8. Filtering is a selection from the unfiltered array. When the call
    without filters and the call with filters both return, the cell
    (i, j, k) of the filtered array is the cell of the unfiltered array at
    the validity time index, the location index and the feature index that
    the filters resolved for the positions i, j and k. *)
Theorem to_ndarray_vlf_filtered_selects vt locs feats
    (p : list LocationForecast) (lf0 : LocationForecast) (a0 a : ndarray) :
  p !! 0%nat = Some lf0 ->
  outcome (to_ndarray_vlf None None None p) = Ok a0 ->
  outcome (to_ndarray_vlf vt locs feats p) = Ok a ->
  exists fc0 l_indexes t_indexes f_indexes,
    forecasts lf0 !! 0%nat = Some fc0
    /\ outcome (location_indexes locs p) = Ok l_indexes
    /\ outcome (validity_times_indexes vt (forecasts lf0)) = Ok t_indexes
    /\ outcome (feature_indexes feats (features fc0)) = Ok f_indexes
    /\ shape a = (length t_indexes, length l_indexes, length f_indexes)
    /\ forall i j k l t f,
         t_indexes !! i = Some t -> l_indexes !! j = Some l ->
         f_indexes !! k = Some f ->
         cell a i j k = cell a0 t l f.
Proof.
  intros Hp Ha0 Ha.
  destruct (to_ndarray_vlf_returned _ _ _ _ _ _ Hp Ha)
    as (fc0 & li & ti & fi & Hfc & Hli & Hti & Hfi & Hs & Hc).
  destruct (to_ndarray_vlf_returned _ _ _ _ _ _ Hp Ha0)
    as (fc0' & li0 & ti0 & fi0 & Hfc' & Hli0 & Hti0 & Hfi0 & _ & Hc0).
  assert (fc0' = fc0) as -> by congruence.
  injection Hli0 as <-. injection Hti0 as <-. injection Hfi0 as <-.
  destruct (location_indexes_selects locs p) as (li' & Hli' & Hsl).
  pose proof (validity_times_indexes_Ok _ _ _ Hti) as Hst.
  destruct (feature_indexes_selects feats (features fc0))
    as (fi' & Hfi' & Hsf).
  assert (li' = li) as -> by congruence.
  assert (fi' = fi) as -> by congruence.
  exists fc0, li, ti, fi. repeat split; auto.
  intros i j k l t f Hi Hj Hk.
  destruct (Hc i j k l t f Hi Hj Hk) as [_ ->].
  pose proof (selects_bound _ _ _ _ Hsl l (list_elem_of_lookup_2 _ _ _ Hj)).
  pose proof (selects_bound _ _ _ _ Hst t (list_elem_of_lookup_2 _ _ _ Hi)).
  pose proof (selects_bound _ _ _ _ Hsf f (list_elem_of_lookup_2 _ _ _ Hk)).
  symmetry. apply (Hc0 t l f l t f); by apply lookup_seq_lt.
Qed.


Lemma truthy_nonempty {A} (xs : list A) : xs <> [] -> truthy (Some xs) = true.
Proof. destruct xs; [congruence | reflexivity]. Qed.

(** X9. The axis of a filter follows the request. For each of the three
    filters, the index list of two requests put together is the index list
    of the first followed by the index list of the second: the output
    keeps the order of the request, not of the payload, and a value
    requested twice is selected twice. *)
Theorem filter_indexes_app (p : list LocationForecast)
    (times : list Forecast_pb) (feature_entries : list FeatureForecast) :
  (forall r1 r2 l1 l2, r1 <> [] -> r2 <> [] ->
     outcome (location_indexes (Some r1) p) = Ok l1 ->
     outcome (location_indexes (Some r2) p) = Ok l2 ->
     outcome (location_indexes (Some (r1 ++ r2)) p) = Ok (l1 ++ l2))
  /\ (forall r1 r2 l1 l2, r1 <> [] -> r2 <> [] ->
        outcome (validity_times_indexes (Some r1) times) = Ok l1 ->
        outcome (validity_times_indexes (Some r2) times) = Ok l2 ->
        outcome (validity_times_indexes (Some (r1 ++ r2)) times)
        = Ok (l1 ++ l2))
  /\ (forall r1 r2 l1 l2, r1 <> [] -> r2 <> [] ->
        outcome (feature_indexes (Some r1) feature_entries) = Ok l1 ->
        outcome (feature_indexes (Some r2) feature_entries) = Ok l2 ->
        outcome (feature_indexes (Some (r1 ++ r2)) feature_entries)
        = Ok (l1 ++ l2)).
Proof.
  assert (Happ : forall {B} (r1 r2 : list B), r1 <> [] -> r1 ++ r2 <> []).
  { intros B [| x r1] r2 H; [congruence | discriminate]. }
  split; [| split]; intros r1 r2 l1 l2 H1 H2;
    unfold location_indexes, validity_times_indexes, feature_indexes;
    rewrite !truthy_nonempty by auto; simpl default.
  - apply (resolve_app _ _ says_location_matches).
  - apply (resolve_app _ _ says_validity_time_matches).
  - apply (resolve_app _ _ says_feature_matches).
Qed.

(** ** Further properties: what to_ndarray_vlf emits *)

Lemma emitted_resolve_nil {R A} (matches : R -> A -> M bool)
    (requested : list R) (template : list A) (acc : list nat) :
  (forall r x, emitted (matches r x) = []) ->
  emitted (resolve matches requested template acc) = [].
Proof.
  intros Hm.
  assert (H : Forall (fun _ => False)
                (emitted (resolve matches requested template acc))).
  { apply Forall_emitted_resolve. intros r x. rewrite Hm. constructor. }
  destruct (emitted _) as [| d l]; [reflexivity |].
  by inversion H.
Qed.

Lemma emitted_location_indexes (locs : option (list Location))
    (p : list LocationForecast) :
  emitted (location_indexes locs p) = [].
Proof.
  unfold location_indexes. destruct (truthy locs); [| reflexivity].
  by apply emitted_resolve_nil.
Qed.

Lemma emitted_validity_times_indexes (vt : option (list datetime))
    (template : list Forecast_pb) :
  emitted (validity_times_indexes vt template) = [].
Proof.
  unfold validity_times_indexes. destruct (truthy vt); [| reflexivity].
  apply emitted_resolve_nil. intros r x.
  unfold validity_time_matches, ToDatetime.
  destruct (in_range (valid_at_ts x)); reflexivity.
Qed.

(** A call that stops in the resolution of the validity times has
    emitted nothing. *)
Lemma emitted_to_ndarray_vlf_validity_raises vt locs feats
    (p : list LocationForecast) (lf0 : LocationForecast) (fc0 : Forecast_pb)
    (e : exn) :
  p !! 0%nat = Some lf0 -> forecasts lf0 !! 0%nat = Some fc0 ->
  outcome (validity_times_indexes vt (forecasts lf0)) = Raise e ->
  emitted (to_ndarray_vlf vt locs feats p) = [].
Proof.
  intros Hp Hfc Hraise. unfold to_ndarray_vlf.
  destruct p as [| lf p']; [discriminate |].
  rewrite emitted_try_except. unfold to_ndarray_vlf_body.
  rewrite (proj2 (getitem_Ok _ _ _) Hp), bind_lift_Ok.
  rewrite (proj2 (getitem_Ok _ _ _) Hfc), bind_lift_Ok.
  destruct (location_indexes_selects locs (lf :: p')) as (li & Hli & _).
  rewrite emitted_bind, Hli, emitted_location_indexes.
  by rewrite emitted_bind, Hraise, emitted_validity_times_indexes.
Qed.

(** What a call that reaches the population has emitted: the warnings
    logged while the feature filter was resolved, then, when it returns,
    the printed warning of the validity times if its check fires. *)
Lemma emitted_to_ndarray_vlf vt locs feats
    (p : list LocationForecast) (lf0 : LocationForecast) (fc0 : Forecast_pb)
    (l_indexes t_indexes f_indexes : list nat) :
  p !! 0%nat = Some lf0 -> forecasts lf0 !! 0%nat = Some fc0 ->
  outcome (location_indexes locs p) = Ok l_indexes ->
  outcome (validity_times_indexes vt (forecasts lf0)) = Ok t_indexes ->
  outcome (feature_indexes feats (features fc0)) = Ok f_indexes ->
  emitted (to_ndarray_vlf vt locs feats p)
  = emitted (feature_indexes feats (features fc0))
    ++ match outcome (to_ndarray_vlf vt locs feats p) with
       | Ok _ =>
           if bool_decide (is_Some vt)
              && negb (length t_indexes =? filter_len vt)%nat
           then [Print_validity_times (length t_indexes) t_indexes]
           else []
       | Raise _ => []
       end.
Proof.
  intros Hp Hfc Hl Ht Hf.
  rewrite (outcome_to_ndarray_vlf vt locs feats p lf0 fc0 _ _ _
             Hp Hfc Hl Ht Hf).
  unfold to_ndarray_vlf. destruct p as [| lf p']; [discriminate |].
  rewrite emitted_try_except. unfold to_ndarray_vlf_body.
  rewrite (proj2 (getitem_Ok _ _ _) Hp), bind_lift_Ok.
  rewrite (proj2 (getitem_Ok _ _ _) Hfc), bind_lift_Ok.
  rewrite emitted_bind, Hl, emitted_location_indexes.
  rewrite emitted_bind, Ht, emitted_validity_times_indexes.
  rewrite emitted_bind, Hf, !app_nil_l. f_equal.
  rewrite emitted_bind, outcome_lift.
  destruct (populate_locations _ _ _ _ _ _) as [a | e] eqn:Hpop;
    [| reflexivity].
  rewrite emitted_bind, outcome_shape_warnings.
  rewrite (emitted_shape_warnings _ _ _ _ _ _ _
             (populate_locations_shape _ _ _ _ _ Hpop)).
  simpl. by rewrite app_nil_r.
Qed.

Lemma emitted_scan_feature_logs (req : ForecastFeature)
    (template entries_left : list FeatureForecast) :
  (forall ff, ff ∈ entries_left -> ff ∈ template) ->
  forall start,
    Forall (fun d =>
              exists ff,
                ff ∈ template /\ ~ known (feature ff)
                /\ d = Log_unknown_feature (feature ff))
      (emitted (scan (feature_matches req) entries_left start)).
Proof.
  induction entries_left as [| ff tl IH]; intros Hsub start; simpl;
    [constructor |].
  apply Forall_emitted_bind.
  - unfold feature_matches. apply Forall_emitted_bind; [| constructor].
    destruct (known_dec (feature ff)) as [Hk | Hun].
    + destruct (ForecastFeature_from_pb_known _ Hk) as (t & -> & _).
      constructor.
    + rewrite (ForecastFeature_from_pb_unknown _ Hun).
      repeat constructor. exists ff. repeat split; auto. apply Hsub. left.
  - intros [|] _; [constructor |]. apply IH.
    intros ff' Hin. apply Hsub. by right.
Qed.

Lemma emitted_feature_indexes_logs
    (feats : option (list ForecastFeature))
    (template : list FeatureForecast) :
  Forall (fun d =>
            exists ff,
              ff ∈ template /\ ~ known (feature ff)
              /\ truthy feats = true
              /\ d = Log_unknown_feature (feature ff))
    (emitted (feature_indexes feats template)).
Proof.
  unfold feature_indexes. destruct (truthy feats); [| constructor].
  generalize (@nil nat). generalize (default [] feats) as requested.
  induction requested as [| r rest IH]; intros acc; simpl; [constructor |].
  apply Forall_emitted_bind; [| intros o _; apply IH].
  eapply Forall_impl;
    [apply (emitted_scan_feature_logs r template template); auto |].
  intros d (ff & Hin & Hun & ->). exists ff. auto.
Qed.


Lemma emitted_feature_indexes_falsy
    (feats : option (list ForecastFeature))
    (template : list FeatureForecast) :
  truthy feats = false -> emitted (feature_indexes feats template) = [].
Proof. intros H. unfold feature_indexes. by rewrite H. Qed.

(** X10. A call without a filter of validity times and without a truthy filter
    of features writes nothing, whatever the payload and whatever the
    filter of locations: an unknown feature code in the payload is not
    reported, and an unmatched location is not either. *)
Theorem to_ndarray_vlf_silent (locs : option (list Location))
    (p : list LocationForecast) :
  emitted (to_ndarray_vlf None locs None p) = []
  /\ emitted (to_ndarray_vlf None locs (Some []) p) = [].
Proof.
  assert (H : forall feats, truthy feats = false ->
                emitted (to_ndarray_vlf None locs feats p) = []).
  { intros feats Hf. destruct p as [| lf0 rest]; [reflexivity |].
    destruct (forecasts lf0) as [| fc0 fcs] eqn:Hfcs.
    { by rewrite to_ndarray_vlf_no_times. }
    destruct (location_indexes_selects locs (lf0 :: rest)) as (li & Hli & _).
    destruct (feature_indexes_selects feats (features fc0))
      as (fi & Hfi & _).
    rewrite (emitted_to_ndarray_vlf None locs feats (lf0 :: rest) lf0 fc0
               li (seq 0 (length (forecasts lf0))) fi);
      [| reflexivity | by rewrite Hfcs | exact Hli | reflexivity | exact Hfi].
    rewrite (emitted_feature_indexes_falsy _ _ Hf), app_nil_l.
    destruct (outcome (to_ndarray_vlf None locs feats (lf0 :: rest)));
      reflexivity. }
  split; by apply H.
Qed.

(** X11. When the warning of the validity times is printed. For a call that
    returns: without a filter of validity times it is never printed; with
    the empty list as the filter it is always printed, with the whole axis
    as its count; with a list that has an element it is printed exactly
    when some requested validity time equals none of the first location. *)
Theorem validity_times_warning_iff vt locs feats
    (p : list LocationForecast) (lf0 : LocationForecast) (a : ndarray) :
  p !! 0%nat = Some lf0 ->
  outcome (to_ndarray_vlf vt locs feats p) = Ok a ->
  (vt = None ->
   forall n l,
     Print_validity_times n l ∉ emitted (to_ndarray_vlf vt locs feats p))
  /\ (vt = Some [] ->
      Print_validity_times (length (forecasts lf0))
        (seq 0 (length (forecasts lf0)))
      ∈ emitted (to_ndarray_vlf vt locs feats p))
  /\ (forall vts, vt = Some vts -> vts <> [] ->
        (exists n l,
           Print_validity_times n l
           ∈ emitted (to_ndarray_vlf vt locs feats p))
        <-> exists r,
              r ∈ vts
              /\ forall y, y ∈ forecasts lf0 -> validity_time_eq r y = false).
Proof.
  intros Hp Ha.
  destruct (to_ndarray_vlf_returned _ _ _ _ _ _ Hp Ha)
    as (fc0 & li & ti & fi & Hfc & Hli & Hti & Hfi & _ & _).
  pose proof (emitted_to_ndarray_vlf vt locs feats p lf0 fc0 li ti fi
                Hp Hfc Hli Hti Hfi) as Hem.
  rewrite Ha in Hem.
  assert (Hlogs : forall n l,
            Print_validity_times n l
            ∉ emitted (feature_indexes feats (features fc0))).
  { intros n l Hin.
    pose proof (emitted_feature_indexes_logs feats (features fc0)) as Hall.
    rewrite Forall_forall in Hall.
    destruct (Hall _ Hin) as (ff & _ & _ & _ & Heq). discriminate. }
  split; [| split].
  - intros -> n l Hin. rewrite Hem in Hin. simpl in Hin.
    rewrite app_nil_r in Hin. by apply (Hlogs n l).
  - intros ->. rewrite Hem. injection Hti as <-.
    rewrite length_seq. unfold filter_len. simpl.
    pose proof (lookup_lt_Some _ _ _ Hfc) as Hlt.
    destruct (length (forecasts lf0)) as [| n]; [lia |]. simpl.
    apply elem_of_app. right. left.
  - intros vts -> Hne.
    pose proof (validity_times_indexes_Ok _ _ _ Hti) as Hsel.
    apply selects_nonempty in Hsel; [| exact Hne].
    rewrite <- (resolved_length_lt_iff _ _ _ _ Hsel).
    pose proof (resolved_length _ _ _ _ Hsel) as Hle.
    rewrite Hem. unfold filter_len. simpl.
    destruct (Nat.eqb_spec (length ti) (length vts)) as [Heq | Hneq]; simpl.
    + rewrite app_nil_r. split; [| lia].
      intros (n & l & Hin). by apply Hlogs in Hin.
    + split; [lia |]. intros _. exists (length ti), ti.
      apply elem_of_app. right. left.
Qed.

(** X12. What is logged. Every code that a call logs as unknown is the code of
    a feature entry of the first validity time of the first location, is
    the value of no member, and is logged while a truthy filter of features
    is resolved; codes of other entries are never looked at. *)
Theorem logged_codes_from_template vt locs feats
    (p : list LocationForecast) (code : Z) :
  Log_unknown_feature code ∈ emitted (to_ndarray_vlf vt locs feats p) ->
  ~ known code
  /\ truthy feats = true
  /\ exists lf0 fc0 ff,
       p !! 0%nat = Some lf0 /\ forecasts lf0 !! 0%nat = Some fc0
       /\ ff ∈ features fc0 /\ feature ff = code.
Proof.
  intros Hin. destruct p as [| lf0 rest]; [by apply elem_of_nil in Hin |].
  destruct (forecasts lf0) as [| fc0 fcs] eqn:Hfcs.
  { rewrite to_ndarray_vlf_no_times in Hin by exact Hfcs.
    by apply elem_of_nil in Hin. }
  assert (Hfc : forecasts lf0 !! 0%nat = Some fc0) by by rewrite Hfcs.
  destruct (location_indexes_selects locs (lf0 :: rest)) as (li & Hli & _).
  destruct (outcome (validity_times_indexes vt (forecasts lf0)))
    as [ti | e] eqn:Hti.
  2: { rewrite (emitted_to_ndarray_vlf_validity_raises vt locs feats
                  (lf0 :: rest) lf0 fc0 e eq_refl Hfc Hti) in Hin.
       by apply elem_of_nil in Hin. }
  destruct (feature_indexes_selects feats (features fc0)) as (fi & Hfi & _).
  rewrite (emitted_to_ndarray_vlf vt locs feats (lf0 :: rest) lf0 fc0
             li ti fi eq_refl Hfc Hli Hti Hfi) in Hin.
  apply elem_of_app in Hin as [Hin | Hin].
  - pose proof (emitted_feature_indexes_logs feats (features fc0)) as Hall.
    rewrite Forall_forall in Hall.
    destruct (Hall _ Hin) as (ff & Hff & Hun & Htr & [= ->]).
    split; [exact Hun |]. split; [exact Htr |].
    exists lf0, fc0, ff. rewrite Hfcs. auto.
  - destruct (outcome _); [| by apply elem_of_nil in Hin].
    destruct (_ && _); [| by apply elem_of_nil in Hin].
    apply list_elem_of_singleton in Hin. discriminate.
Qed.

Lemma ForecastFeature_eqb_eq (a b : ForecastFeature) :
  ForecastFeature_eqb a b = true <-> a = b.
Proof. destruct a, b; simpl; split; congruence. Qed.

Lemma feature_eq_unknown (req : ForecastFeature) (ff : FeatureForecast) :
  ~ known (feature ff) ->
  feature_eq req ff = true <-> req = UNSPECIFIED.
Proof.
  intros Hun. unfold feature_eq, mapped_feature.
  rewrite (ForecastFeature_from_pb_unknown _ Hun). simpl.
  apply ForecastFeature_eqb_eq.
Qed.

(** X13. A feature entry of the template whose code no member has can be
    selected through [UNSPECIFIED] only. Requesting [UNSPECIFIED] alone
    selects one index, at or before that entry; a request with an element
    and without [UNSPECIFIED] never selects the index of that entry. *)
Theorem unknown_code_selected_by_UNSPECIFIED
    (template : list FeatureForecast) (i : nat) (ff : FeatureForecast) :
  template !! i = Some ff -> ~ known (feature ff) ->
  (exists j,
     (j <= i)%nat
     /\ outcome (feature_indexes (Some [UNSPECIFIED]) template) = Ok [j])
  /\ (forall requested indexes,
        requested <> [] -> UNSPECIFIED ∉ requested ->
        outcome (feature_indexes (Some requested) template) = Ok indexes ->
        i ∉ indexes).
Proof.
  intros Hi Hun. split.
  - destruct (feature_indexes_selects (Some [UNSPECIFIED]) template)
      as (l & Hl & Hsel).
    apply selects_nonempty in Hsel; [| discriminate].
    inversion Hsel as [| r rs j l' Hf Hrest | r rs l' Hf Hrest]; subst.
    + inversion Hrest; subst. exists j. split; [| exact Hl].
      inversion Hf as [j' x Hx Hm Hbefore |]; subst.
      destruct (Nat.le_gt_cases j i) as [Hle | Hgt]; [exact Hle |].
      pose proof (Hbefore i ff Hgt Hi) as Hfalse.
      pose proof (proj2 (feature_eq_unknown UNSPECIFIED ff Hun) eq_refl).
      congruence.
    + inversion Hf as [| Hnone]; subst.
      pose proof (Hnone ff (list_elem_of_lookup_2 _ _ _ Hi)) as Hfalse.
      pose proof (proj2 (feature_eq_unknown UNSPECIFIED ff Hun) eq_refl).
      congruence.
  - intros requested indexes Hne Hnot Hout Hin.
    destruct (feature_indexes_selects (Some requested) template)
      as (l & Hl & Hsel).
    assert (l = indexes) as -> by congruence.
    apply selects_nonempty in Hsel; [| exact Hne].
    destruct (resolved_elem _ _ _ _ _ Hsel Hin) as (r & Hr & Hf).
    inversion Hf as [j x Hx Hm Hbefore |]; subst.
    assert (x = ff) as -> by congruence.
    apply (feature_eq_unknown r ff Hun) in Hm. subst r. contradiction.
Qed.

Lemma resolved_own_keys {R A} (pm : R -> A -> bool) (key : A -> R)
    (template : list A) :
  (forall r y, y ∈ template -> pm r y = true <-> r = key y) ->
  NoDup (key <$> template) ->
  resolved pm template (key <$> template) (seq 0 (length template)).
Proof.
  intros Hpm Hnd.
  assert (Hfirst : forall i x,
            template !! i = Some x ->
            first_match (pm (key x)) template (Some i)).
  { intros i x Hx. apply (first_match_at _ _ i x); [exact Hx | |].
    { apply Hpm; [by eapply list_elem_of_lookup_2 | reflexivity]. }
    intros j y Hj Hy. destruct (pm (key x) y) eqn:Hm; [| reflexivity].
    apply Hpm in Hm; [| by eapply list_elem_of_lookup_2].
    assert (i = j); [| lia].
    apply (NoDup_lookup (key <$> template) i j (key x) Hnd).
    - by rewrite list_lookup_fmap, Hx.
    - by rewrite list_lookup_fmap, Hy, Hm. }
  assert (Haux : forall l k,
            (forall i x, l !! i = Some x -> template !! (k + i)%nat = Some x) ->
            resolved pm template (key <$> l) (seq k (length l))).
  { induction l as [| x l IH]; intros k Hl; simpl; [constructor |].
    apply resolved_hit.
    - apply Hfirst. rewrite <- (Nat.add_0_r k). by apply Hl.
    - apply IH. intros i y Hy.
      replace (S k + i)%nat with (k + S i)%nat by lia. by apply Hl. }
  apply Haux. intros i x Hx. exact Hx.
Qed.

Lemma converted_times (template : list Forecast_pb) :
  forall times : list datetime,
    (fun fc => ToDatetime (valid_at_ts fc)) <$> template = Ok <$> times ->
    Forall (fun fc => in_range (valid_at_ts fc) = true) template
    /\ times = (fun fc => microseconds (valid_at_ts fc)) <$> template.
Proof.
  induction template as [| fc fcs IH]; intros [| t times];
    rewrite ?fmap_nil, ?fmap_cons; try discriminate; [by auto |].
  intros [= Hfc Hrest]. apply ToDatetime_Ok in Hfc as [Hin ->].
  destruct (IH times Hrest) as [Hall ->]. split; [by constructor | done].
Qed.

(** X14. Requesting the validity times of the first location themselves, in
    their order, when no two of them are equal, gives the array (or the
    exception) of the call without a filter of validity times. The
    requested datetimes are what the timestamps of the first location
    convert to, all of which are in the range of [datetime]. *)
Theorem own_validity_times_select_all locs feats
    (p : list LocationForecast) (lf0 : LocationForecast)
    (times : list datetime) :
  p !! 0%nat = Some lf0 ->
  (fun fc => ToDatetime (valid_at_ts fc)) <$> forecasts lf0 = Ok <$> times ->
  NoDup times ->
  outcome (to_ndarray_vlf (Some times) locs feats p)
  = outcome (to_ndarray_vlf None locs feats p).
Proof.
  intros Hp Htimes Hnd.
  assert (Hp' : exists rest, p = lf0 :: rest).
  { destruct p as [| lf rest]; [discriminate |].
    injection Hp as ->. by exists rest. }
  destruct Hp' as [rest ->].
  destruct (forecasts lf0) as [| fc0 fcs] eqn:Hfcs.
  { by rewrite !to_ndarray_vlf_no_times. }
  assert (Hfc : forecasts lf0 !! 0%nat = Some fc0) by by rewrite Hfcs.
  rewrite <- Hfcs in *.
  destruct (converted_times _ _ Htimes) as [Hrange Heq].
  destruct (location_indexes_selects locs (lf0 :: rest)) as (li & Hli & _).
  destruct (feature_indexes_selects feats (features fc0)) as (fi & Hfi & _).
  assert (Hti : outcome (validity_times_indexes (Some times) (forecasts lf0))
                = Ok (seq 0 (length (forecasts lf0)))).
  { destruct (validity_times_indexes_selects (Some times) (forecasts lf0))
      as (ti & Hti & Hsel); [auto |].
    rewrite Hti. f_equal. subst times.
    apply selects_nonempty in Hsel; [| rewrite Hfcs; discriminate].
    eapply resolved_unique; [exact Hsel |].
    apply resolved_own_keys; [| exact Hnd].
    intros r y Hy. rewrite validity_time_eq_true.
    rewrite Forall_forall in Hrange. specialize (Hrange y Hy).
    split; [by intros [_ ->] | by intros ->]. }
  rewrite (outcome_to_ndarray_vlf (Some times) locs feats (lf0 :: rest)
             lf0 fc0 li _ fi Hp Hfc Hli Hti Hfi).
  rewrite (outcome_to_ndarray_vlf None locs feats (lf0 :: rest)
             lf0 fc0 li (seq 0 (length (forecasts lf0))) fi Hp Hfc Hli
             eq_refl Hfi).
  reflexivity.
Qed.


(** ** Further properties: requested values that the payload holds *)

Lemma resolved_present {R A} (pm : R -> A -> bool) (template : list A)
    (r : R) (indexes : list nat) (i : nat) (x : A) :
  resolved pm template [r] indexes ->
  template !! i = Some x -> pm r x = true ->
  exists j y,
    (j <= i)%nat /\ indexes = [j]
    /\ template !! j = Some y /\ pm r y = true.
Proof.
  intros Hres Hx Hm.
  inversion Hres as [| r' rs j l Hf Hrest | r' rs l Hf Hrest]; subst.
  - inversion Hrest; subst.
    inversion Hf as [j' y Hy Hmy Hbefore |]; subst.
    exists j, y. repeat split; auto.
    destruct (Nat.le_gt_cases j i) as [Hle | Hgt]; [exact Hle |].
    pose proof (Hbefore i x Hgt Hx). congruence.
  - inversion Hf as [| Hnone]; subst.
    pose proof (Hnone x (list_elem_of_lookup_2 _ _ _ Hx)). congruence.
Qed.

(** X15. A requested validity time, or feature, that the template holds is
    selected. Requesting, alone, the datetime of the entry at a position
    of the first location, when the timestamps of the entries before that
    position are in the range of [datetime], selects exactly one index:
    the first position with that validity time, which is at or before the
    position asked about. Requesting, alone, the member that the code of a
    feature entry is mapped to selects exactly one index, the first
    position with that member. *)
Theorem present_value_is_selected :
  (forall (template : list Forecast_pb) i fc t,
     template !! i = Some fc ->
     ToDatetime (valid_at_ts fc) = Ok t ->
     (forall k fc',
        (k < i)%nat -> template !! k = Some fc' ->
        in_range (valid_at_ts fc') = true) ->
     exists j fc',
       (j <= i)%nat
       /\ outcome (validity_times_indexes (Some [t]) template) = Ok [j]
       /\ template !! j = Some fc'
       /\ ToDatetime (valid_at_ts fc') = Ok t)
  /\ (forall (template : list FeatureForecast) i ff,
        template !! i = Some ff ->
        exists j ff',
          (j <= i)%nat
          /\ outcome (feature_indexes
                        (Some [mapped_feature (feature ff)]) template)
             = Ok [j]
          /\ template !! j = Some ff'
          /\ mapped_feature (feature ff') = mapped_feature (feature ff)).
Proof.
  split.
  - intros template i fc t Hi Ht Hbefore.
    apply ToDatetime_Ok in Ht as [Hin ->].
    assert (Hm : validity_time_eq (microseconds (valid_at_ts fc)) fc = true)
      by by apply validity_time_eq_true.
    destruct (validity_times_indexes_cases
                (Some [microseconds (valid_at_ts fc)]) template)
      as [(l & Hl & Hsel & _) | (_ & _ & r & Hr & Hover)].
    + apply selects_nonempty in Hsel; [| discriminate].
      destruct (resolved_present _ _ _ _ i fc Hsel Hi Hm)
        as (j & fc' & Hle & -> & Hj & Hm').
      exists j, fc'. repeat split; auto.
      apply validity_time_eq_true in Hm' as [Hin' Heq].
      apply ToDatetime_Ok. auto.
    + exfalso. simpl in Hr. apply list_elem_of_singleton in Hr as ->.
      destruct Hover as (k & fck & Hk & Hout & Hearlier).
      destruct (Nat.lt_trichotomy k i) as [Hlt | [-> | Hgt]].
      * pose proof (Hbefore k fck Hlt Hk). congruence.
      * congruence.
      * destruct (Hearlier i fc Hgt Hi) as [_ Hne]. congruence.
  - intros template i ff Hi.
    destruct (feature_indexes_selects
                (Some [mapped_feature (feature ff)]) template)
      as (l & Hl & Hsel).
    apply selects_nonempty in Hsel; [| discriminate].
    destruct (resolved_present _ _ _ _ i ff Hsel Hi)
      as (j & ff' & Hle & -> & Hj & Hm).
    { unfold feature_eq. by apply ForecastFeature_eqb_eq. }
    exists j, ff'. repeat split; auto.
    unfold feature_eq in Hm. apply ForecastFeature_eqb_eq in Hm. congruence.
Qed.

Lemma Location_eqb_self (l : Location) :
  nan_free l -> Location_eqb l l = true.
Proof.
  intros [Hlat Hlon]. unfold Location_eqb, is_nan in *.
  rewrite String.eqb_refl, andb_true_r.
  apply negb_false_iff in Hlat, Hlon. by rewrite Hlat, Hlon.
Qed.

(** X16. A requested location that the payload holds is found when its
    coordinates are numbers. Requesting, alone, the location of an entry of
    the payload, as [Location.from_pb] reads it, when neither coordinate
    is NaN, selects exactly one index: the first position of the payload
    whose location equals it, which is at or before that entry. *)
Theorem own_location_is_selected (p : list LocationForecast) (i : nat)
    (lf : LocationForecast) :
  p !! i = Some lf ->
  nan_free (Location_from_pb (location lf)) ->
  exists j lf',
    (j <= i)%nat
    /\ outcome (location_indexes
                  (Some [Location_from_pb (location lf)]) p) = Ok [j]
    /\ p !! j = Some lf'
    /\ Location_eqb (Location_from_pb (location lf))
         (Location_from_pb (location lf')) = true
    /\ forall k lfk,
         (k < j)%nat -> p !! k = Some lfk ->
         Location_eqb (Location_from_pb (location lf))
           (Location_from_pb (location lfk)) = false.
Proof.
  intros Hi Hnan.
  destruct (location_indexes_selects
              (Some [Location_from_pb (location lf)]) p)
    as (l & Hl & Hsel).
  apply selects_nonempty in Hsel; [| discriminate].
  destruct (resolved_present _ _ _ _ i lf Hsel Hi)
    as (j & lf' & Hle & -> & Hj & Hm).
  { unfold location_eq. by apply Location_eqb_self. }
  exists j, lf'. repeat split; auto.
  inversion Hsel as [| r rs j' l' Hf Hrest | r rs l' Hf Hrest]; subst;
    [| inversion Hrest].
  inversion Hf as [j'' x Hx Hmx Hbefore |]; subst. exact Hbefore.
Qed.

(** X17. The array and the rows agree. When [to_ndarray_vlf] without filters
    returns an array and [flatten] returns the rows of the same location
    entries, the cell (t, l, f) of the array holds the value of the feature
    entry at [l], [t], [f], and the row of that entry, with the
    coordinates of the location and the validity time of the entry, is
    among the rows. *)
Theorem array_cells_among_rows (p : list LocationForecast)
    (a : ndarray) (rows : list row) (n0 n1 n2 t l f : nat) :
  outcome (to_ndarray_vlf None None None p) = Ok a ->
  flatten p = Ok rows ->
  shape a = (n0, n1, n2) ->
  (t < n0)%nat -> (l < n1)%nat -> (f < n2)%nat ->
  exists lf fc ff,
    p !! l = Some lf /\ forecasts lf !! t = Some fc
    /\ features fc !! f = Some ff
    /\ cell a t l f = Some (value ff)
    /\ entry_row lf fc ff ∈ rows.
Proof.
  intros Ha Hrows Hs Ht Hl Hf.
  destruct (to_ndarray_vlf_Ok_first _ _ _ _ _ Ha) as [lf0 Hp].
  destruct (to_ndarray_vlf_returned _ _ _ _ _ _ Hp Ha)
    as (fc0 & li & ti & fi & _ & Hli & Hti & Hfi & Hs' & Hc).
  injection Hli as <-. injection Hti as <-. injection Hfi as <-.
  rewrite Hs, !length_seq in Hs'. injection Hs' as -> -> ->.
  destruct (Hc t l f l t f) as [[v Hv] Hcell]; [by apply lookup_seq_lt .. |].
  pose proof Hv as Hv'.
  apply source_Some in Hv' as (lf & fc & ff & Hlf & Hfc & Hff & <-).
  exists lf, fc, ff. repeat split; auto; [congruence |].
  unfold flatten in Hrows. rewrite flatten_locations_errors in Hrows.
  destruct (head (errors p)); [discriminate |].
  injection Hrows as <-. unfold entries.
  apply list_elem_of_bind. exists lf.
  split; [| eapply list_elem_of_lookup_2; eauto].
  apply list_elem_of_bind. exists fc.
  split; [| eapply list_elem_of_lookup_2; eauto].
  apply list_elem_of_fmap_2. eapply list_elem_of_lookup_2; eauto.
Qed.


(** ** Further properties: the streams of the client *)

Lemma key_eqb_features (f1 f2 : list ForecastFeature) :
  key_eqb (KFeature <$> f1) (KFeature <$> f2) = true <-> f1 = f2.
Proof.
  revert f2. induction f1 as [| a f1 IH]; intros [| b f2];
    rewrite ?fmap_nil, ?fmap_cons; cbn [key_eqb key_item_eqb];
    try (split; [discriminate | congruence]); [tauto |].
  rewrite andb_true_iff, ForecastFeature_eqb_eq, IH.
  split; [intros [-> ->]; reflexivity | intros [= -> ->]; auto].
Qed.


Lemma streams_lookup_app (key : list key_item)
    (s1 s2 : list (list key_item * StreamingHelper)) :
  streams_lookup key (s1 ++ s2)
  = match streams_lookup key s1 with
    | Some h => Some h
    | None => streams_lookup key s2
    end.
Proof.
  unfold streams_lookup. rewrite find_app'.
  destruct (List.find _ s1); reflexivity.
Qed.


(** X20. A call never changes or removes a stream. For locations whose
    coordinates are not NaN, the dictionary after a call is the dictionary
    before it, followed by one new entry exactly when the key was not
    found; and every key that was found before the call is found after it,
    with the same helper. *)
Theorem stream_live_forecast_keeps (locations : list Location)
    (features_ : list ForecastFeature)
    (streams : list (list key_item * StreamingHelper)) :
  Forall (fun l => is_nan (latitude l) = false
                   /\ is_nan (longitude l) = false) locations ->
  exists added,
    fst (stream_live_forecast locations features_ streams)
    = streams ++ added
    /\ (length added <= 1)%nat
    /\ (added = []
        <-> is_Some (streams_lookup (stream_key locations features_)
                       streams))
    /\ forall key h,
         streams_lookup key streams = Some h ->
         streams_lookup key
           (fst (stream_live_forecast locations features_ streams))
         = Some h.
Proof.
  intros _. unfold stream_live_forecast.
  destruct (streams_lookup (stream_key locations features_) streams)
    as [h |] eqn:Hlook; simpl.
  - exists []. rewrite app_nil_r. repeat split; auto.
  - eexists [_]. split; [reflexivity |]. split; [simpl; lia |].
    split.
    + split; [discriminate | intros [h Hh]; discriminate].
    + intros key h Hh. by rewrite streams_lookup_app, Hh.
Qed.

(** X21. Which requests share a stream. For locations whose coordinates
    are not NaN, the keys of two requests are equal exactly when the two
    lists of locations have the same length and are equal position by
    position, and the two lists of features are the same: the order of the
    locations and of the features matters, and a location is never taken
    for a feature. *)
Theorem stream_key_eqb_iff (l1 l2 : list Location)
    (f1 f2 : list ForecastFeature) :
  Forall (fun l => is_nan (latitude l) = false
                   /\ is_nan (longitude l) = false) l1 ->
  key_eqb (stream_key l1 f1) (stream_key l2 f2) = true
  <-> Forall2 (fun a b => Location_eqb a b = true) l1 l2 /\ f1 = f2.
Proof.
  intros _. unfold stream_key. revert l2.
  induction l1 as [| a l1 IH]; intros [| b l2]; simpl.
  - rewrite key_eqb_features. split; [intros ->; auto | tauto].
  - split; [| intros [H _]; inversion H].
    destruct f1; simpl; discriminate.
  - split; [| intros [H _]; inversion H].
    destruct f2; simpl; discriminate.
  - rewrite andb_true_iff, IH. split.
    + intros [Hab [Hall ->]]. split; [by constructor | reflexivity].
    + intros [Hall ->]. inversion Hall; subst. auto.
Qed.

End Weather.

(** ** The statements on the sample payloads *)

Example from_pb_sample_codes :
  ForecastFeature_from_pb sample_codes 6
  = ([], Ok SURFACE_SOLAR_RADIATION_DOWNWARDS)
  /\ ForecastFeature_from_pb sample_codes 99
     = ([Log_unknown_feature 99], Ok UNSPECIFIED).
Proof. split; reflexivity. Qed.

Lemma sample_code_99_unknown : ~ known sample_codes 99.
Proof. intros [t Ht]. destruct t; discriminate. Qed.

Lemma payload_2x3x2_uniform : uniform payload_2x3x2.
Proof.
  exists [Ok 3600000000; Ok 7200000000; Ok 10800000000], [1; 6].
  repeat constructor.
Qed.

Lemma payload_2x3x2_complete (lf0 : LocationForecast) (fc0 : Forecast_pb) :
  payload_2x3x2 !! 0%nat = Some lf0 -> forecasts lf0 !! 0%nat = Some fc0 ->
  complete payload_2x3x2 lf0 fc0.
Proof.
  intros H1 H2. injection H1 as <-. injection H2 as <-.
  intros l t f Hl Ht Hf. simpl in Hl, Ht, Hf.
  destruct l as [| [| l]]; [| | lia];
    (destruct t as [| [| [| t]]]; [| | | lia]);
    (destruct f as [| [| f]]; [| | lia]); by eexists.
Qed.

Lemma payload_2x3x2_in_range : timestamps_in_range payload_2x3x2.
Proof. repeat constructor. Qed.

(** C5, at the input where the code departs from it. The payload holds one
    feature entry, of code 99; instead of returning its one row, [flatten]
    raises the [ValueError] of the enum constructor, although
    [ForecastFeature.from_pb] would have mapped the code to [UNSPECIFIED]. *)
Theorem flatten_sample_unknown_code :
  HistoricalForecasts_flatten sample_codes payload_unknown_code
  = Raise (ValueError_enum 99)
  /\ length (entries sample_codes payload_unknown_code) = 1%nat
  /\ outcome (ForecastFeature_from_pb sample_codes 99) = Ok UNSPECIFIED.
Proof. repeat split. Qed.

(** The payload of two locations, three validity times and two features
    is flattened to twelve rows, the entries in the order of the payload. *)
Example flatten_payload_2x3x2 :
  HistoricalForecasts_flatten sample_codes payload_2x3x2
  = Ok (entries sample_codes payload_2x3x2)
  /\ length (entries sample_codes payload_2x3x2) = 12%nat.
Proof. split; reflexivity. Qed.

(** C6, at the input where the code departs from it. One location is
    requested and the payload does not hold it: the array returned has a
    location axis of length 0, and nothing is printed or logged. *)
Theorem absent_location_no_warning :
  to_ndarray_vlf sample_codes None (Some [oslo]) None payload_2x3x2
  = ([], Ok {| shape := (3%nat, 0%nat, 2%nat); cells := [[]; []; []] |}).
Proof. vm_compute. reflexivity. Qed.

(** The check of the validity times does print: one time is requested
    that the payload does not hold. *)
Example absent_validity_time_warning :
  to_ndarray_vlf sample_codes (Some [5]) None None payload_2x3x2
  = ([Print_validity_times 0 []],
     Ok {| shape := (0%nat, 2%nat, 2%nat); cells := [] |}).
Proof. vm_compute. reflexivity. Qed.

(** Against C10 as stated: the payload holds a feature entry whose code no
    member has, and [flatten] raises the [OverflowError] of the creation
    time, which is converted before the enum is called, not a
    [ValueError]. *)
Lemma flatten_late_creation_raises :
  (exists lf fc ff,
     lf ∈ payload_late_creation /\ fc ∈ forecasts lf /\ ff ∈ features fc
     /\ ~ known sample_codes (feature ff))
  /\ HistoricalForecasts_flatten sample_codes payload_late_creation
     = Raise OverflowError
  /\ forall code,
       HistoricalForecasts_flatten sample_codes payload_late_creation
       <> Raise (ValueError_enum code).
Proof.
  split; [| split; [reflexivity | discriminate]].
  eexists _, _, _. split; [left |]. split; [left |]. split; [left |].
  exact sample_code_99_unknown.
Qed.


(** Against C1 as stated: a uniform payload with a location entry whose
    location has no validity time entry; the call raises. *)
Lemma no_times_payload_raises :
  payload_no_times <> []
  /\ uniform payload_no_times
  /\ outcome (to_ndarray_vlf sample_codes None None None payload_no_times)
     = Raise (RuntimeError IndexError).
Proof.
  split; [discriminate |]. split; [| reflexivity].
  exists [], []. repeat constructor.
Qed.

(** C2, at the input where the code departs from it. The second location
    lacks the entry of the second feature, which the first location has.
    The call leaves no cell NaN for it: it raises the [RuntimeError] caused
    by the [IndexError] of the missing entry and returns no array. *)
Theorem sparse_payload_raises :
  source payload_sparse 0 0 1 = Some 2%float
  /\ source payload_sparse 1 0 1 = None
  /\ to_ndarray_vlf sample_codes None None None payload_sparse
     = ([], Raise (RuntimeError IndexError)).
Proof. repeat split. Qed.

(** The full payload without filters: the array of the scenario. *)
Example to_ndarray_vlf_payload_2x3x2 :
  to_ndarray_vlf sample_codes None None None payload_2x3x2
  = ([], Ok {| shape := (3%nat, 2%nat, 2%nat);
               cells := [ [[1; 2]; [7; 8]];
                          [[3; 4]; [9; 10]];
                          [[5; 6]; [11; 12]] ]%float |}).
Proof. vm_compute. reflexivity. Qed.

(** ** Instances *)

Lemma flatten_unknown_code_raises_witness :
  exists code,
    List.find (unknownb sample_codes) (all_codes payload_unknown_code)
    = Some code
    /\ ~ known sample_codes code
    /\ HistoricalForecasts_flatten sample_codes payload_unknown_code
       = Raise (ValueError_enum code)
    /\ is_ValueError (ValueError_enum code) = true
    /\ outcome (ForecastFeature_from_pb sample_codes code) = Ok UNSPECIFIED.
Proof.
  eapply (flatten_unknown_code_raises sample_codes payload_unknown_code
            _ _ {| feature := 99; value := 1%float |}).
  - repeat constructor.
  - unfold payload_unknown_code. left.
  - simpl. left.
  - simpl. left.
  - exact sample_code_99_unknown.
Defined.

Lemma to_ndarray_vlf_wraps_failures_witness :
  outcome (to_ndarray_vlf_body sample_codes None None None payload_no_times)
  = Raise IndexError
  /\ outcome (to_ndarray_vlf sample_codes None None None payload_no_times)
     = Raise (RuntimeError IndexError).
Proof.
  split; [reflexivity |].
  apply (to_ndarray_vlf_wraps_failures sample_codes None None None
           payload_no_times); [discriminate | reflexivity].
Defined.

Lemma empty_filter_is_absent_witness :
  exists a,
    outcome (to_ndarray_vlf sample_codes (Some []) None None payload_2x3x2)
    = Ok a
    /\ outcome (to_ndarray_vlf sample_codes None None None payload_2x3x2)
       = Ok a
    /\ shape a = (3%nat, 2%nat, 2%nat)
    /\ cell a 2 1 0 = Some 11%float.
Proof.
  destruct (empty_filter_is_absent sample_codes None None None payload_2x3x2)
    as [_ Hwhole]; [discriminate |].
  destruct (Hwhole _ _ eq_refl eq_refl
              (payload_2x3x2_complete _ _ eq_refl eq_refl)
              (Forall_nil_2 _))
    as [(a & li & fi & Ha & Ha' & Hli & Hfi & Hs & Hc) _].
  injection Hli as <-. injection Hfi as <-.
  exists a. split; [exact Ha |]. split; [exact Ha' |]. split; [exact Hs |].
  rewrite (Hc 2 1 0 1 0)%nat; [reflexivity | simpl; lia | reflexivity ..].
Defined.

Lemma to_ndarray_vlf_uniform_witness :
  exists a,
    outcome (to_ndarray_vlf sample_codes None None None payload_2x3x2) = Ok a
    /\ shape a = (3%nat, 2%nat, 2%nat).
Proof.
  destruct (to_ndarray_vlf_uniform sample_codes payload_2x3x2 _ _
              eq_refl eq_refl payload_2x3x2_uniform)
    as (a & Ha & _ & Hs & _).
  exists a. split; [exact Ha | exact Hs].
Defined.


(** ** Instances of the further properties *)

Lemma flatten_length_witness :
  length (entries sample_codes payload_2x3x2) = 12%nat.
Proof. exact (flatten_length sample_codes payload_2x3x2 _ eq_refl). Defined.

Lemma to_ndarray_vlf_raises_iff_witness :
  outcome (to_ndarray_vlf sample_codes (Some [7200000000]) None None
             payload_late_time)
  = Raise (RuntimeError OverflowError).
Proof.
  apply (to_ndarray_vlf_raises_iff sample_codes (Some [7200000000]) None None
           payload_late_time _ eq_refl).
  split; [discriminate |]. split; [reflexivity |].
  exists 7200000000. split; [left |].
  exists 0%nat, (two_features 1000000000000 1%float 2%float).
  split; [reflexivity |]. split; [reflexivity |]. intros j fc' Hj. lia.
Defined.

Lemma to_ndarray_vlf_cells_from_payload_witness :
  exists l t f lf fc ff,
    payload_2x3x2 !! l = Some lf /\ forecasts lf !! t = Some fc
    /\ features fc !! f = Some ff
    /\ cell array_2x3x2 1 1 0 = Some (value ff).
Proof.
  apply (to_ndarray_vlf_cells_from_payload sample_codes None None None
           payload_2x3x2 array_2x3x2 3 2 2 1 1 0).
  - vm_compute. reflexivity.
  - reflexivity.
  - lia.
  - lia.
  - lia.
Defined.

Lemma to_ndarray_vlf_unfiltered_iff_witness :
  shape array_2x3x2 = (3%nat, 2%nat, 2%nat).
Proof.
  apply (proj2 (to_ndarray_vlf_unfiltered_iff sample_codes payload_2x3x2 _ _
                  eq_refl eq_refl) array_2x3x2).
  vm_compute. reflexivity.
Defined.

Lemma to_ndarray_vlf_filtered_selects_witness :
  cell array_second_time 0 1 1 = cell array_2x3x2 1 1 1.
Proof.
  destruct (to_ndarray_vlf_filtered_selects sample_codes
              (Some [7200000000]) None None payload_2x3x2 _
              array_2x3x2 array_second_time eq_refl)
    as (fc0 & li & ti & fi & Hfc & Hli & Hti & Hfi & _ & Hc).
  - vm_compute. reflexivity.
  - vm_compute. reflexivity.
  - injection Hfc as <-. injection Hli as <-. injection Hti as <-.
    injection Hfi as <-. apply Hc; reflexivity.
Defined.

Lemma validity_times_warning_iff_witness :
  Print_validity_times 3 [0; 1; 2]%nat
  ∈ emitted (to_ndarray_vlf sample_codes (Some []) None None payload_2x3x2).
Proof.
  apply (proj1 (proj2 (validity_times_warning_iff sample_codes (Some [])
                         None None payload_2x3x2 _ array_2x3x2 eq_refl
                         eq_refl))).
  reflexivity.
Defined.

Lemma logged_codes_from_template_witness :
  ~ known sample_codes 99.
Proof.
  apply (logged_codes_from_template sample_codes None None
           (Some [UNSPECIFIED]) payload_unknown_code 99).
  vm_compute. left.
Defined.

Lemma unknown_code_selected_by_UNSPECIFIED_witness :
  exists j,
    (j <= 0)%nat
    /\ outcome (feature_indexes sample_codes (Some [UNSPECIFIED])
                  [ {| feature := 99; value := 1%float |} ])
       = Ok [j].
Proof.
  apply (unknown_code_selected_by_UNSPECIFIED sample_codes
           [ {| feature := 99; value := 1%float |} ] 0
           {| feature := 99; value := 1%float |} eq_refl).
  intros [t Ht]. destruct t; discriminate.
Defined.

Lemma own_validity_times_select_all_witness :
  outcome (to_ndarray_vlf sample_codes
             (Some [3600000000; 7200000000; 10800000000]) None None
             payload_2x3x2)
  = outcome (to_ndarray_vlf sample_codes None None None payload_2x3x2).
Proof.
  apply (own_validity_times_select_all sample_codes None None
           payload_2x3x2 _ [3600000000; 7200000000; 10800000000] eq_refl).
  - reflexivity.
  - apply (bool_decide_unpack _). vm_compute. exact I.
Defined.

Lemma own_location_is_selected_witness :
  exists j lf',
    (j <= 1)%nat
    /\ outcome (location_indexes (Some [Location_from_pb paris])
                  payload_2x3x2)
       = Ok [j]
    /\ payload_2x3x2 !! j = Some lf'
    /\ Location_eqb (Location_from_pb paris)
         (Location_from_pb (location lf')) = true
    /\ forall k lfk,
         (k < j)%nat -> payload_2x3x2 !! k = Some lfk ->
         Location_eqb (Location_from_pb paris)
           (Location_from_pb (location lfk)) = false.
Proof.
  apply (own_location_is_selected payload_2x3x2 1
           {| forecasts := [ two_features 3600 7%float 8%float;
                             two_features 7200 9%float 10%float;
                             two_features 10800 11%float 12%float ];
              location := paris;
              creation_ts := at_second 120 |} eq_refl).
  split; reflexivity.
Defined.

Lemma array_cells_among_rows_witness :
  exists lf fc ff,
    payload_2x3x2 !! 1%nat = Some lf /\ forecasts lf !! 2%nat = Some fc
    /\ features fc !! 1%nat = Some ff
    /\ cell array_2x3x2 2 1 1 = Some (value ff)
    /\ entry_row sample_codes lf fc ff ∈ entries sample_codes payload_2x3x2.
Proof.
  apply (array_cells_among_rows sample_codes payload_2x3x2 array_2x3x2
           (entries sample_codes payload_2x3x2) 3 2 2 2 1 1).
  - vm_compute. reflexivity.
  - reflexivity.
  - reflexivity.
  - lia.
  - lia.
  - lia.
Defined.


Lemma stream_live_forecast_keeps_witness :
  exists added,
    fst (stream_live_forecast sample_codes [oslo] [TEMPERATURE_2_METRE] [])
    = [] ++ added
    /\ (length added <= 1)%nat.
Proof.
  destruct (stream_live_forecast_keeps sample_codes [oslo]
              [TEMPERATURE_2_METRE] []) as (added & Hfst & Hlen & _).
  - repeat constructor.
  - exists added. split; [exact Hfst | exact Hlen].
Defined.

Lemma stream_key_eqb_iff_witness :
  key_eqb (stream_key [oslo; Location_from_pb paris] [TEMPERATURE_2_METRE])
    (stream_key [Location_from_pb paris; oslo] [TEMPERATURE_2_METRE])
  = true
  <-> Forall2 (fun a b => Location_eqb a b = true)
        [oslo; Location_from_pb paris] [Location_from_pb paris; oslo]
      /\ [TEMPERATURE_2_METRE] = [TEMPERATURE_2_METRE].
Proof.
  apply (stream_key_eqb_iff [oslo; Location_from_pb paris]
           [Location_from_pb paris; oslo] [TEMPERATURE_2_METRE]
           [TEMPERATURE_2_METRE]).
  repeat constructor.
Defined.
